(** * Gateway of the fashion recommendation system (backend/app.py)

    A shallow embedding of the Flask gateway: the start-up resolution of
    one Gradio client per service, the staging helpers and the five POST
    routes plus the health route.

    Conventions of the model.
    - A Python [str] is a [string] whose characters are code points below
      256; a [bytes] value is a [list byte].
    - Every call into the outside world (client construction, [sleep],
      HTTP GET, file writes, the remote [predict], [shutil.copy]) appends
      an [event] to the history.  What the outside world answers is given
      by oracles that may depend on the whole history so far.
    - [print] lines are diagnostics and are not recorded.
    - Writes below the uploads directory, which the module creates when it
      is loaded, succeed. *)

From Stdlib Require Import Strings.Ascii Strings.String Strings.Byte ZArith Lia.
From stdpp Require Import gmap strings list.

Set Warnings "-register-all".
Local Open Scope string_scope.
Local Open Scope list_scope.

(** ** Python values carried by requests and responses *)

(** JSON documents as [json.loads] / [jsonify] see them (numbers are
    integers; floats are outside the model). *)
Inductive json : Type :=
| JNull
| JBool (b : bool)
| JNum (n : Z)
| JStr (s : string)
| JArr (items : list json)
| JObj (fields : list (string * json)).

(** Truth value of a Python object, as [not x] tests it. *)
Definition truthy (v : json) : bool :=
  match v with
  | JNull => false
  | JBool b => b
  | JNum n => negb (n =? 0)%Z
  | JStr s => negb (String.eqb s "")
  | JArr items => match items with [] => false | _ => true end
  | JObj fields => match fields with [] => false | _ => true end
  end.

(** [dict.get(key)] on a parsed JSON object: the last binding of a repeated
    key wins, an absent key gives [None]. *)
Fixpoint dict_get (key : string) (fields : list (string * json)) : option json :=
  match fields with
  | [] => None
  | (k, v) :: rest =>
      match dict_get key rest with
      | Some w => Some w
      | None => if String.eqb k key then Some v else None
      end
  end.

(** ** Clients, events and the effect monad *)

(** A Gradio client, bound to the address it was constructed against. *)
Record Client : Type := { endpoint : string }.

#[global] Instance Client_eq_dec : EqDecision Client.
Proof. solve_decision. Defined.

(** Argument of a remote [predict]: plain text or [file(path)]. *)
Inductive rarg : Type :=
| AText (v : json)
| AFile (path : string).

Inductive event : Type :=
| EvConnect (url : string)                        (* Client(url) *)
| EvSleep (seconds : nat)                         (* sleep(n) *)
| EvHttpGet (url : string)                        (* requests.get(url, stream=True) *)
| EvOpen (path : string)                          (* open(path, 'wb') *)
| EvWrite (path : string) (data : list byte)      (* file.write / FileStorage.save *)
| EvRemote (c : Client) (args : list rarg)        (* client.predict(..., api_name="/predict") *)
| EvCopy (src : json) (dst : string).             (* shutil.copy(src, dst) *)

Abbreviation history := (list event).

(** Outcome of a Python computation: a value, or a raised [Exception]
    with its [str(e)]. *)
Inductive result (A : Type) : Type :=
| Ok (a : A)
| Raise (msg : string).
Arguments Ok {A} a.
Arguments Raise {A} msg.

Definition M (A : Type) : Type := history -> result A * history.

Definition ret {A} (a : A) : M A := fun h => (Ok a, h).

Definition raise {A} (msg : string) : M A := fun h => (Raise msg, h).

Definition bind {A B} (m : M A) (k : A -> M B) : M B :=
  fun h =>
    match m h with
    | (Ok a, h') => k a h'
    | (Raise msg, h') => (Raise msg, h')
    end.

(** [try: body  except Exception as e: handler(str(e))] *)
Definition try_except {A} (body : M A) (handler : string -> M A) : M A :=
  fun h =>
    match body h with
    | (Ok a, h') => (Ok a, h')
    | (Raise msg, h') => handler msg h'
    end.

Definition emit (e : event) : M unit := fun h => (Ok tt, h ++ [e]).

(** Read an oracle at the current history. *)
Definition ask {A} (oracle : history -> A) : M A := fun h => (Ok (oracle h), h).

Declare Scope py_scope.
Delimit Scope py_scope with py.
Notation "x <- m ;; k" := (bind m (fun x => k))
  (at level 100, m at next level, right associativity) : py_scope.
Notation "m ;;; k" := (bind m (fun _ => k))
  (at level 100, right associativity) : py_scope.
Local Open Scope py_scope.

(** ** The outside world *)

Inductive http_result : Type :=
| TransportError (msg : string)
    (* requests.get raised *)
| Response (status_code : Z) (stream : nat -> list (list byte))
    (broken : option string).
    (* a response; [stream n] is the sequence of pieces that iterating
       over its content with chunk size [n] yields: the sizes of the
       pieces follow the transfer (chunk boundaries, decoding) and are not
       fixed by [n]; the bytes delivered are their concatenation.
       [broken] is the message of the exception the iteration raises
       after these pieces, if any *)

Record datetime : Type := {
  year : Z; month : Z; day : Z;
  hour : Z; minute : Z; second : Z
}.

Record World : Type := {
  (* does [Client(url)] succeed?  [None]: yes; [Some msg]: it raises *)
  Client_new : history -> string -> option string;
  (* requests.get(url, stream=True) *)
  requests_get : history -> string -> http_result;
  (* client.predict(args, api_name="/predict"): the value, or [str(e)] *)
  remote_predict : history -> Client -> list rarg -> string + json;
  (* does shutil.copy(src, dst) succeed? *)
  shutil_copy : history -> json -> string -> bool;
  (* datetime.now() *)
  now : history -> datetime;
  (* request.form[key] on an absent key: str of werkzeug's BadRequestKeyError *)
  bad_request_key : string -> string;
  (* str(e) of the TypeError / AttributeError of applying [op] to [v] *)
  type_error : string -> json -> string;
  (* str(v) for a value that is not a str *)
  py_str : json -> string;
  (* Path.exists() *)
  path_exists : history -> string -> bool
}.

(** ** Pure helpers *)

(** [str.isspace] on a code point below 256. *)
Definition isspace (c : ascii) : bool :=
  let n := nat_of_ascii c in
  (((9 <=? n) && (n <=? 13)) || ((28 <=? n) && (n <=? 32))
   || (n =? 133) || (n =? 160))%nat.

Fixpoint lstrip (s : string) : string :=
  match s with
  | EmptyString => EmptyString
  | String c rest => if isspace c then lstrip rest else s
  end.

Fixpoint rstrip (s : string) : string :=
  match s with
  | EmptyString => EmptyString
  | String c rest =>
      match rstrip rest with
      | EmptyString => if isspace c then EmptyString else String c EmptyString
      | kept => String c kept
      end
  end.

(** [str.strip()] *)
Definition strip (s : string) : string := rstrip (lstrip s).

(** [str.split(sep)] for a one-character separator: every occurrence
    cuts, and empty pieces are kept. *)
Fixpoint split_on (sep : ascii) (s : string) : list string :=
  match s with
  | EmptyString => [EmptyString]
  | String c rest =>
      if Ascii.eqb c sep then EmptyString :: split_on sep rest
      else
        match split_on sep rest with
        | piece :: pieces => String c piece :: pieces
        | [] => [String c EmptyString]
        end
  end.

(** [sep.join(pieces)] *)
Fixpoint join (sep : string) (pieces : list string) : string :=
  match pieces with
  | [] => EmptyString
  | [piece] => piece
  | piece :: rest => piece +:+ sep +:+ join sep rest
  end.

Definition digit (n : Z) : ascii := ascii_of_nat (Z.to_nat (48 + n mod 10)).

(** Zero-padded decimal fields of [strftime]: [%m %d %H %M %S] and [%Y]. *)
Definition pad2 (n : Z) : string :=
  String (digit (n / 10)) (String (digit n) EmptyString).

Definition pad4 (n : Z) : string :=
  String (digit (n / 1000)) (String (digit (n / 100))
    (String (digit (n / 10)) (String (digit n) EmptyString))).

(** [t.strftime("%Y%m%d_%H%M%S")] *)
Definition strftime (t : datetime) : string :=
  pad4 (year t) +:+ pad2 (month t) +:+ pad2 (day t) +:+ "_"
  +:+ pad2 (hour t) +:+ pad2 (minute t) +:+ pad2 (second t).

(** The values [datetime.now()] can take. *)
Definition valid_datetime (t : datetime) : Prop :=
  (1 <= year t <= 9999 /\ 1 <= month t <= 12 /\ 1 <= day t <= 31
   /\ 0 <= hour t < 24 /\ 0 <= minute t < 60 /\ 0 <= second t < 60)%Z.

(** Paths are the Windows paths of the configuration. *)
Definition backslash : string := String (ascii_of_nat 92) EmptyString.

(** [dir / name], then [str] *)
Definition path_join (dir name : string) : string := dir +:+ backslash +:+ name.

Definition BASE_DIR : string := "C:\Users\deeks\fashion-recommendation-sys".
Definition BACKEND_DIR : string := path_join BASE_DIR "backend".
Definition UPLOADS_DIR : string := path_join BACKEND_DIR "uploads".
Definition PUBLIC_DIR : string := path_join (path_join BASE_DIR "frontend") "public".

(** [response.iter_content(chunk_size)]: the pieces the stream yields when
    it is read [chunk_size] bytes at a time. *)
Definition iter_content (stream : nat -> list (list byte)) (chunk_size : nat)
  : list (list byte) :=
  stream chunk_size.

Definition CLIENTS : list (string * list string) :=
  [ ("virtual_tryon",
      [ "https://7395458a587bc50ec3.gradio.live/";
        "https://virtual-try-on.hf.space/" ]);
    ("chatbot",
      [ "https://fe81ff40040ecfff3c.gradio.live/";
        "https://fashion-chatbot.hf.space/" ]);
    ("text_to_dress",
      [ "dhaan-ish/text-to-cloth" ]);
    ("occasion",
      [ "https://8c8e6f96c1fe2aefb7.gradio.live/";
        "https://fashion-occasion.hf.space/" ]) ].

(** The dict comprehension of the health route:
    [{name: 'available' if name in clients else 'unavailable' for name in names}] *)
Definition health_services (names : list string) (clients : gmap string Client)
  : list (string * json) :=
  map (fun name =>
         (name, JStr (if decide (is_Some (clients !! name))
                      then "available" else "unavailable")))
      names.

Section Gateway.

Variable W : World.

(** ** Endpoint resolution at start-up *)

Definition new_Client (url : string) : M Client :=
  fun h =>
    match Client_new W h url with
    | None => (Ok {| endpoint := url |}, h ++ [EvConnect url])
    | Some msg => (Raise msg, h ++ [EvConnect url])
    end.

Definition sleep (seconds : nat) : M unit := emit (EvSleep seconds).

(** The [for attempt in range(max_retries)] loop, with [remaining]
    iterations left: the current one has index [max_retries - remaining]. *)
Fixpoint initialize_from (url : string) (max_retries remaining : nat)
  : M (option Client) :=
  match remaining with
  | 0 => ret None
  | S k =>
      let attempt := max_retries - remaining in
      try_except
        (client <- new_Client url ;; ret (Some client))
        (fun _ =>
           (if (attempt <? max_retries - 1)%nat then sleep 2 else ret tt) ;;;
           initialize_from url max_retries k)
  end.

Definition initialize_gradio_client (url : string) (max_retries : nat)
  : M (option Client) :=
  initialize_from url max_retries max_retries.

Definition default_max_retries : nat := 3.

(** The inner [for url in config["urls"]] loop with its [break]. *)
Fixpoint try_urls (urls : list string) : M (option Client) :=
  match urls with
  | [] => ret None
  | url :: rest =>
      client <- initialize_gradio_client url default_max_retries ;;
      match client with
      | Some c => ret (Some c)
      | None => try_urls rest
      end
  end.

(** The outer [for service_name, config in CLIENTS.items()] loop. *)
Fixpoint resolve_all (config : list (string * list string))
    (clients : gmap string Client) : M (gmap string Client) :=
  match config with
  | [] => ret clients
  | (service_name, urls) :: rest =>
      client <- try_urls urls ;;
      resolve_all rest
        (match client with
         | Some c => <[service_name := c]> clients
         | None => clients
         end)
  end.

Definition startup (config : list (string * list string))
  : M (gmap string Client) :=
  resolve_all config ∅.

(** ** Staging helpers *)

(** [datetime.now().strftime("%Y%m%d_%H%M%S")], then the f-string
    [f"{timestamp}_{original_name}"]. *)
Definition generate_unique_filename (original_name : string) : M string :=
  t <- ask (now W) ;;
  let timestamp := strftime t in
  ret (timestamp +:+ "_" +:+ original_name).

Definition safe_copy (src : json) (dst : string) : M bool :=
  try_except
    (emit (EvCopy src dst) ;;;
     ok <- ask (fun h => shutil_copy W h src dst) ;;
     if ok then ret true else raise "copy failed")
    (fun _ => ret false).

(** [requests.get(url, stream=True)] *)
Definition http_get (url : string)
  : M (Z * (nat -> list (list byte)) * option string) :=
  fun h =>
    match requests_get W h url with
    | TransportError msg => (Raise msg, h ++ [EvHttpGet url])
    | Response code stream broken =>
        (Ok (code, stream, broken), h ++ [EvHttpGet url])
    end.

Fixpoint write_chunks (path : string) (chunks : list (list byte)) : M unit :=
  match chunks with
  | [] => ret tt
  | chunk :: rest => emit (EvWrite path chunk) ;;; write_chunks path rest
  end.

Definition download_image (image_url : string) : M (option string) :=
  try_except
    (let image_url := strip image_url in
     let filename := "downloaded_image.png" in
     let file_path := path_join UPLOADS_DIR filename in
     response <- http_get image_url ;;
     let '(status_code, stream, broken) := response in
     if (status_code =? 200)%Z then
       emit (EvOpen file_path) ;;;
       write_chunks file_path (iter_content stream 128) ;;;
       match broken with
       | Some msg => raise msg
       | None => ret (Some file_path)
       end
     else ret None)
    (fun _ => ret None).

(** ** Requests and responses *)

Record FileStorage : Type := { filename : string; content : list byte }.

Record request : Type := {
  (* request.get_json() / request.json: the document, or the str of the
     exception the framework raises for a body that is not JSON *)
  req_json : string + json;
  req_files : gmap string FileStorage;
  req_form : gmap string string
}.

Record response : Type := { body : json; status : nat }.

(** [jsonify(d), code]; a bare [jsonify(d)] has status 200. *)
Definition jsonify (d : list (string * json)) (code : nat) : response :=
  {| body := JObj d; status := code |}.

Definition get_json (req : request) : M json :=
  match req_json req with
  | inl msg => raise msg
  | inr data => ret data
  end.

(** [data[key]]: KeyError on an absent key, TypeError on a non-dict. *)
Definition subscript (data : json) (key : string) : M json :=
  match data with
  | JObj fields =>
      match dict_get key fields with
      | Some v => ret v
      | None => raise ("'" +:+ key +:+ "'")
      end
  | _ => raise (type_error W "__getitem__" data)
  end.

(** [data.get(key)]: [None] on an absent key, AttributeError on a non-dict. *)
Definition get (data : json) (key : string) : M json :=
  match data with
  | JObj fields => ret (default JNull (dict_get key fields))
  | _ => raise (type_error W "get" data)
  end.

(** [request.form[key]] *)
Definition form_subscript (req : request) (key : string) : M string :=
  match req_form req !! key with
  | Some v => ret v
  | None => raise (bad_request_key W key)
  end.

(** [client.predict(args, api_name="/predict")]; wrapping an argument in
    [file(...)] is part of the call. *)
Definition predict_call (c : Client) (args : list rarg) : M json :=
  fun h =>
    match remote_predict W h c args with
    | inl msg => (Raise msg, h ++ [EvRemote c args])
    | inr v => (Ok v, h ++ [EvRemote c args])
    end.

(** [FileStorage.save(path)] *)
Definition save (f : FileStorage) (path : string) : M unit :=
  emit (EvWrite path (content f)).

(** A value inside an f-string. *)
Definition fmt (v : json) : string :=
  match v with
  | JStr s => s
  | _ => py_str W v
  end.

(** [result.split(",")] *)
Definition split_result (result : json) : M (list string) :=
  match result with
  | JStr s => ret (split_on "," s)
  | _ => raise (type_error W "split" result)
  end.

(** The [except Exception as e] clause shared by the five POST routes. *)
Definition error_500 (msg : string) : M response :=
  ret (jsonify [("error", JStr msg)] 500).

(** ** Routes *)

Section Routes.

(** The registry built at start-up; the routes only read it. *)
Variable clients : gmap string Client.

Definition health_check : M response :=
  public_exists <- ask (fun h => path_exists W h PUBLIC_DIR) ;;
  uploads_exists <- ask (fun h => path_exists W h UPLOADS_DIR) ;;
  ret (jsonify
    [ ("status", JStr "healthy");
      ("directories",
         JObj [ ("public", JStr PUBLIC_DIR); ("uploads", JStr UPLOADS_DIR) ]);
      ("directories_exist",
         JObj [ ("public", JBool public_exists);
                ("uploads", JBool uploads_exists) ]);
      ("services", JObj (health_services (map fst CLIENTS) clients)) ]
    200).

Definition predict_body (req : request) : M response :=
  match clients !! "chatbot" with
  | None => ret (jsonify [("error", JStr "Chatbot service not available")] 503)
  | Some chatbot =>
      data <- get_json req ;;
      text_input <- subscript data "text" ;;
      result <- predict_call chatbot [AText text_input] ;;
      ret (jsonify [("result", result)] 200)
  end.

Definition predict (req : request) : M response :=
  try_except (predict_body req) error_500.

(** The tail shared by the two try-on routes and the prompt route:
    publish the artifact under a fresh name. *)
Definition publish (result : json) (logical_name ok_message ko_message : string)
  : M response :=
  result_filename <- generate_unique_filename logical_name ;;
  let destination := path_join PUBLIC_DIR result_filename in
  copied <- safe_copy result destination ;;
  if copied then
    ret (jsonify [ ("message", JStr ok_message);
                   ("filename", JStr result_filename) ] 200)
  else
    ret (jsonify [("error", JStr ko_message)] 500).

Definition upload_ocassion_body (req : request) : M response :=
  match clients !! "virtual_tryon" with
  | None =>
      ret (jsonify [("error", JStr "Virtual try-on service not available")] 503)
  | Some tryon =>
      match req_files req !! "uploadedFile" with
      | None => ret (jsonify [("error", JStr "No file part")] 400)
      | Some uploaded_file =>
          url <- form_subscript req "url" ;;
          downloaded_path <- download_image url ;;
          match downloaded_path with
          | None => ret (jsonify [("error", JStr "Failed to download image")] 500)
          | Some downloaded_path =>
              if String.eqb downloaded_path "" then
                ret (jsonify [("error", JStr "Failed to download image")] 500)
              else if String.eqb (filename uploaded_file) "" then
                ret (jsonify [("error", JStr "No selected file")] 400)
              else
                let upload_path := path_join UPLOADS_DIR "upload.png" in
                save uploaded_file upload_path ;;;
                result <- predict_call tryon
                            [AFile downloaded_path; AFile upload_path] ;;
                publish result "result.png"
                  "Result image copied successfully."
                  "Failed to save result image"
          end
      end
  end.

Definition upload_ocassion (req : request) : M response :=
  try_except (upload_ocassion_body req) error_500.

Definition upload_files_body (req : request) : M response :=
  match clients !! "virtual_tryon" with
  | None =>
      ret (jsonify [("error", JStr "Virtual try-on service not available")] 503)
  | Some tryon =>
      match req_files req !! "uploadedFile" with
      | None => ret (jsonify [("error", JStr "No file part")] 400)
      | Some uploaded_file =>
          if String.eqb (filename uploaded_file) "" then
            ret (jsonify [("error", JStr "No selected file")] 400)
          else
            let upload_path := path_join UPLOADS_DIR "upload.png" in
            save uploaded_file upload_path ;;;
            result <- predict_call tryon
                        [AFile (path_join PUBLIC_DIR "image.JPEG");
                         AFile upload_path] ;;
            publish result "result.png"
              "Result image copied successfully."
              "Failed to save result image"
      end
  end.

Definition upload_files (req : request) : M response :=
  try_except (upload_files_body req) error_500.

Definition handle_prompt_body (req : request) : M response :=
  match clients !! "text_to_dress" with
  | None =>
      ret (jsonify [("error", JStr "Text-to-dress service not available")] 503)
  | Some dress =>
      data <- get_json req ;;
      prompt <- get data "prompt" ;;
      if negb (truthy prompt) then
        ret (jsonify [("error", JStr "No prompt provided")] 400)
      else
        result <- predict_call dress [AText prompt] ;;
        publish result "generated_dress.png"
          "Success" "Failed to save generated image"
  end.

Definition handle_prompt (req : request) : M response :=
  try_except (handle_prompt_body req) error_500.

Definition handleocassion_body (req : request) : M response :=
  match clients !! "occasion" with
  | None => ret (jsonify [("error", JStr "Occasion service not available")] 503)
  | Some occasion =>
      data <- get_json req ;;
      color <- get data "color" ;;
      selected_occasion <- get data "selectedOccasion" ;;
      if negb (truthy color) || negb (truthy selected_occasion) then
        ret (jsonify [("error", JStr "Color and occasion are required")] 400)
      else
        result <- predict_call occasion
                    [AText (JStr (fmt color +:+ " shirt for " +:+ fmt selected_occasion))] ;;
        new_items <- split_result result ;;
        ret (jsonify [ ("newItems", JArr (map JStr new_items));
                       ("showRecommendations", JBool true) ] 200)
  end.

Definition handleocassion (req : request) : M response :=
  try_except (handleocassion_body req) error_500.

(** The routing table. *)
Inductive route : Type :=
| Health | Predict | UploadOcassion | Upload | HandlePrompt | HandleOcassion.

Definition dispatch (r : route) (req : request) : M response :=
  match r with
  | Health => health_check
  | Predict => predict req
  | UploadOcassion => upload_ocassion req
  | Upload => upload_files req
  | HandlePrompt => handle_prompt req
  | HandleOcassion => handleocassion req
  end.

(** The [try] block of a POST route, before its [except] clause. *)
Definition route_body (r : route) (req : request) : M response :=
  match r with
  | Health => health_check
  | Predict => predict_body req
  | UploadOcassion => upload_ocassion_body req
  | Upload => upload_files_body req
  | HandlePrompt => handle_prompt_body req
  | HandleOcassion => handleocassion_body req
  end.

End Routes.

End Gateway.

(** The service a route looks up in the registry. *)
Definition capability (r : route) : option string :=
  match r with
  | Health => None
  | Predict => Some "chatbot"
  | UploadOcassion | Upload => Some "virtual_tryon"
  | HandlePrompt => Some "text_to_dress"
  | HandleOcassion => Some "occasion"
  end.

(** ** Vocabulary of the statements *)

(** [j] failed constructions against [url], each followed by its wait. *)
Definition failed_rounds (url : string) (j : nat) : history :=
  concat (replicate j [EvConnect url; EvSleep 2]).

(** A candidate that used up its three attempts: no wait after the last. *)
Definition exhausted (url : string) : history :=
  [EvConnect url; EvSleep 2; EvConnect url; EvSleep 2; EvConnect url].

(** Events of one failed attempt with index [a] out of [n]. *)
Definition attempt_events (n : nat) (url : string) (a : nat) : history :=
  EvConnect url :: (if (a <? n - 1)%nat then [EvSleep 2] else []).

(** Events of [k] failed attempts in a row, starting at index [a]. *)
Definition failures (n : nat) (url : string) (a k : nat) : history :=
  concat (map (attempt_events n url) (seq a k)).

(** Would [Client(url)] succeed after history [h]? *)
Definition connects (W : World) (h : history) (url : string) : bool :=
  match Client_new W h url with
  | None => true
  | Some _ => false
  end.

(** Starting from history [h], each of the three attempts against each
    candidate of [urls], taken in order, fails: the attempt of index [i]
    against a candidate comes after the exhausted candidates before it
    and after its own [i] failed rounds. *)
Definition all_attempts_fail (W : World) (h : history) (urls : list string)
  : Prop :=
  forall front url back i,
    urls = front ++ url :: back -> i < 3 ->
    connects W (h ++ concat (map exhausted front) ++ failed_rounds url i) url
    = false.

Definition whitespace (s : string) : Prop :=
  Forall (fun c => isspace c = true) (list_ascii_of_string s).

Fixpoint last_char (s : string) : option ascii :=
  match s with
  | EmptyString => None
  | String c rest =>
      match last_char rest with
      | Some d => Some d
      | None => Some c
      end
  end.

(** A string that neither starts nor ends with a whitespace character. *)
Definition trimmed (s : string) : bool :=
  match s with
  | EmptyString => true
  | String c _ =>
      negb (isspace c)
      && match last_char s with
         | Some d => negb (isspace d)
         | None => true
         end
  end.

(** Where the download helper stages its file. *)
Definition downloaded_path : string := path_join UPLOADS_DIR "downloaded_image.png".

(** Number of occurrences of a character. *)
Fixpoint count_char (c : ascii) (s : string) : nat :=
  match s with
  | EmptyString => 0
  | String d rest => (if Ascii.eqb d c then 1 else 0) + count_char c rest
  end.

#[global] Instance datetime_eq_dec : EqDecision datetime.
Proof. solve_decision. Defined.

(** *** Requests that lack a required field *)

(** The JSON body is an object without the key. *)
Definition lacks_key (req : request) (key : string) : bool :=
  match req_json req with
  | inr (JObj fields) =>
      match dict_get key fields with
      | None => true
      | Some _ => false
      end
  | _ => false
  end.

(** The JSON body is an object whose key is absent or holds a value that
    Python counts as false (the empty string among them). *)
Definition falsy_field (req : request) (key : string) : bool :=
  match req_json req with
  | inr (JObj fields) => negb (truthy (default JNull (dict_get key fields)))
  | _ => false
  end.

Definition no_file_part (req : request) : bool :=
  match req_files req !! "uploadedFile" with
  | None => true
  | Some _ => false
  end.

Definition empty_filename (req : request) : bool :=
  match req_files req !! "uploadedFile" with
  | None => false
  | Some f => String.eqb (filename f) ""
  end.

Definition no_url (req : request) : bool :=
  match req_form req !! "url" with
  | None => true
  | Some _ => false
  end.

(** A required field of the route is missing or empty. *)
Definition missing_required_field (r : route) (req : request) : bool :=
  match r with
  | Health => false
  | Predict => lacks_key req "text"
  | Upload => no_file_part req || empty_filename req
  | UploadOcassion => no_file_part req || empty_filename req || no_url req
  | HandlePrompt => falsy_field req "prompt"
  | HandleOcassion => falsy_field req "color" || falsy_field req "selectedOccasion"
  end.

(** The requests a route turns away with its own 400 answer before doing
    anything else. *)
Definition rejected_up_front (r : route) (req : request) : bool :=
  match r with
  | Health | Predict => false
  | Upload => no_file_part req || empty_filename req
  | UploadOcassion => no_file_part req
  | HandlePrompt => falsy_field req "prompt"
  | HandleOcassion => falsy_field req "color" || falsy_field req "selectedOccasion"
  end.

Definition upload_path : string := path_join UPLOADS_DIR "upload.png".

(** *** Counting events *)

Definition is_connect (e : event) : bool :=
  match e with EvConnect _ => true | _ => false end.

Definition is_sleep (e : event) : bool :=
  match e with EvSleep _ => true | _ => false end.

Definition is_remote (e : event) : bool :=
  match e with EvRemote _ _ => true | _ => false end.

(** Number of events of a kind in a stretch of history. *)
Definition count_if (kind : event -> bool) (evs : history) : nat :=
  length (List.filter kind evs).

(** Number of candidate addresses of a configuration. *)
Definition total_urls (config : list (string * list string)) : nat :=
  list_sum (map (fun entry => length (snd entry)) config).

(** The two kinds of event of the start-up pass. *)
Definition startup_event (e : event) : Prop :=
  exists url, e = EvConnect url \/ e = EvSleep 2.

(** *** A specification of effects

    [behaves m n P]: from any history, [m] only appends events, at most
    [n] of them remote calls and none of them a client construction or a
    wait, and every value it returns satisfies [P]. *)
Definition behaves {A} (m : M A) (n : nat) (P : A -> Prop) : Prop :=
  forall h, exists evs,
    snd (m h) = h ++ evs
    /\ count_if is_remote evs <= n
    /\ count_if is_connect evs = 0
    /\ count_if is_sleep evs = 0
    /\ forall a, fst (m h) = Ok a -> P a.

(** The statuses a route can answer with once its service is bound. *)
Definition served_status (resp : response) : Prop :=
  status resp = 200 \/ status resp = 400 \/ status resp = 500.

(** What the [try] block of a route does, by the state of its service. *)
Definition route_answer (clients : gmap string Client) (r : route)
    (resp : response) : Prop :=
  match capability r with
  | None => status resp = 200
  | Some cap =>
      match clients !! cap with
      | None => status resp = 503
      | Some _ => served_status resp /\ (r = Predict -> status resp <> 400)
      end
  end.

(** The name a result is published under when the clock is read after
    history [h]. *)
Definition stamped (W : World) (h : history) (logical_name : string) : string :=
  strftime (now W h) +:+ "_" +:+ logical_name.

(** The answer of a file route once the remote result is in hand:
    success with the published name if the copy works, failure if not. *)
Definition published (copied : bool) (fname ok_message ko_message : string)
  : response :=
  if copied then
    jsonify [("message", JStr ok_message); ("filename", JStr fname)] 200
  else jsonify [("error", JStr ko_message)] 500.

(** The fixed picture the try-on route dresses. *)
Definition base_image : string := path_join PUBLIC_DIR "image.JPEG".

(** A decimal digit. *)
Definition is_digit (c : ascii) : bool :=
  ((48 <=? nat_of_ascii c) && (nat_of_ascii c <=? 57))%nat.

(** ** Sample worlds, used to instantiate the statements *)

Definition sample_time : datetime :=
  {| year := 2024; month := 3; day := 9; hour := 7; minute := 5; second := 59 |}.

(** Everything answers; the remote returns a comma-separated list. *)
Definition calm_world : World := {|
  Client_new := fun _ _ => None;
  requests_get := fun _ _ => Response 200 (fun _ => [[x01; x02; x03]%byte]) None;
  remote_predict := fun _ _ _ => inr (JStr "shirt,shoes,tie");
  shutil_copy := fun _ _ _ => true;
  now := fun _ => sample_time;
  bad_request_key := fun _ => "400 Bad Request";
  type_error := fun _ _ => "TypeError";
  py_str := fun _ => "None";
  path_exists := fun _ _ => true
|}.

(** Only the address [good] can be connected to. *)
Definition fallback_world (good : string) : World := {|
  Client_new := fun _ url => if String.eqb url good then None else Some "refused";
  requests_get := fun _ _ => TransportError "unreachable";
  remote_predict := fun _ _ _ => inl "remote failure";
  shutil_copy := fun _ _ _ => false;
  now := fun _ => sample_time;
  bad_request_key := fun _ => "400 Bad Request";
  type_error := fun _ _ => "TypeError";
  py_str := fun _ => "None";
  path_exists := fun _ _ => true
|}.

(** The clock advances by one second with every event. *)
Definition ticking_world : World := {|
  Client_new := fun _ _ => None;
  requests_get := fun _ _ => Response 404 (fun _ => []) None;
  remote_predict := fun _ _ _ => inr (JStr "shirt,shoes,tie");
  shutil_copy := fun _ _ _ => true;
  now := fun h =>
    {| year := 2024; month := 3; day := 9;
       hour := 7; minute := 5; second := Z.of_nat (length h) |};
  bad_request_key := fun _ => "400 Bad Request";
  type_error := fun _ _ => "TypeError";
  py_str := fun _ => "None";
  path_exists := fun _ _ => true
|}.

Definition no_request : request :=
  {| req_json := inr (JObj []); req_files := ∅; req_form := ∅ |}.

Definition all_bound : gmap string Client :=
  list_to_map
    [ ("virtual_tryon", {| endpoint := "https://virtual-try-on.hf.space/" |});
      ("chatbot", {| endpoint := "https://fashion-chatbot.hf.space/" |});
      ("text_to_dress", {| endpoint := "dhaan-ish/text-to-cloth" |});
      ("occasion", {| endpoint := "https://fashion-occasion.hf.space/" |}) ].

(** A try-on request whose file part has an empty file name. *)
Definition unnamed_file_request : request :=
  {| req_json := inl "415 Unsupported Media Type";
     req_files := {[ "uploadedFile" := {| filename := ""; content := [] |} ]};
     req_form := {[ "url" := "http://example.org/shirt.png" ]} |}.

Definition text_request : request :=
  {| req_json := inr (JObj [("text", JStr "hello")]);
     req_files := ∅; req_form := ∅ |}.

Definition occasion_request : request :=
  {| req_json := inr (JObj [ ("color", JStr "red");
                             ("selectedOccasion", JStr "wedding") ]);
     req_files := ∅; req_form := ∅ |}.

Definition occasion_only : gmap string Client :=
  {[ "occasion" := {| endpoint := "https://fashion-occasion.hf.space/" |} ]}.

Definition named_file_request : request :=
  {| req_json := inl "415 Unsupported Media Type";
     req_files := {[ "uploadedFile" :=
                       {| filename := "dress.png"; content := [x89; x50]%byte |} ]};
     req_form := {[ "url" := "http://example.org/shirt.png" ]} |}.

Definition prompt_request : request :=
  {| req_json := inr (JObj [("prompt", JStr "a red summer dress")]);
     req_files := ∅; req_form := ∅ |}.

(** The remote answers with [None]; the stream of a download breaks. *)
Definition null_world : World := {|
  Client_new := fun _ _ => None;
  requests_get := fun _ _ =>
    Response 200 (fun _ => [[x01; x02; x03]%byte]) (Some "connection reset");
  remote_predict := fun _ _ _ => inr JNull;
  shutil_copy := fun _ _ _ => false;
  now := fun _ => sample_time;
  bad_request_key := fun _ => "400 Bad Request";
  type_error := fun op _ => "'NoneType' object has no attribute '" +:+ op +:+ "'";
  py_str := fun _ => "None";
  path_exists := fun _ _ => true
|}.

Definition file_only_request : request :=
  {| req_json := inl "415 Unsupported Media Type";
     req_files := {[ "uploadedFile" :=
                       {| filename := "dress.png"; content := [x89; x50]%byte |} ]};
     req_form := ∅ |}.

Definition null_body_request : request :=
  {| req_json := inr JNull; req_files := ∅; req_form := ∅ |}.

Definition boolean_occasion_request : request :=
  {| req_json := inr (JObj [ ("color", JBool true);
                             ("selectedOccasion", JStr "wedding") ]);
     req_files := ∅; req_form := ∅ |}.

(** As [calm_world], with the [str] of the booleans. *)
Definition str_world : World := {|
  Client_new := fun _ _ => None;
  requests_get := fun _ _ => Response 200 (fun _ => [[x01; x02; x03]%byte]) None;
  remote_predict := fun _ _ _ => inr (JStr "shirt,shoes,tie");
  shutil_copy := fun _ _ _ => true;
  now := fun _ => sample_time;
  bad_request_key := fun _ => "400 Bad Request";
  type_error := fun _ _ => "TypeError";
  py_str := fun v => match v with
                     | JBool true => "True"
                     | JBool false => "False"
                     | _ => "None"
                     end;
  path_exists := fun _ _ => true
|}.

(** A twelve-byte body sent as three transfer chunks of 5, 5 and 2 bytes. *)
Definition chunked_world : World := {|
  Client_new := fun _ _ => None;
  requests_get := fun _ _ =>
    Response 200
      (fun _ => [ [x01; x02; x03; x04; x05]%byte;
                  [x06; x07; x08; x09; x0a]%byte;
                  [x0b; x0c]%byte ])
      None;
  remote_predict := fun _ _ _ => inr (JStr "shirt,shoes,tie");
  shutil_copy := fun _ _ _ => true;
  now := fun _ => sample_time;
  bad_request_key := fun _ => "400 Bad Request";
  type_error := fun _ _ => "TypeError";
  py_str := fun _ => "None";
  path_exists := fun _ _ => true
|}.

(** * Properties *)

(** ** The effect monad *)

Lemma bind_ok {A B} (m : M A) (k : A -> M B) h a h' :
  m h = (Ok a, h') -> bind m k h = k a h'.
Proof. intros E. unfold bind. now rewrite E. Qed.

Lemma bind_raise {A B} (m : M A) (k : A -> M B) h msg h' :
  m h = (Raise msg, h') -> bind m k h = (Raise msg, h').
Proof. intros E. unfold bind. now rewrite E. Qed.

Lemma try_except_ok {A} (body : M A) handler h a h' :
  body h = (Ok a, h') -> try_except body handler h = (Ok a, h').
Proof. intros E. unfold try_except. now rewrite E. Qed.

Lemma try_except_raise {A} (body : M A) handler h msg h' :
  body h = (Raise msg, h') -> try_except body handler h = handler msg h'.
Proof. intros E. unfold try_except. now rewrite E. Qed.

(** ** Endpoint resolution *)

Section Resolver.

Variable W : World.

Lemma initialize_from_spec (url : string) (n k : nat) : forall h : history,
  k <= n ->
  (exists j, j < k
     /\ Client_new W (h ++ failures n url (n - k) j) url = None
     /\ initialize_from W url n k h
        = (Ok (Some {| endpoint := url |}),
           h ++ failures n url (n - k) j ++ [EvConnect url]))
  \/ initialize_from W url n k h = (Ok None, h ++ failures n url (n - k) k).
Proof.
  induction k as [|k IH]; intros h Hk.
  - right. cbn. unfold ret, failures. cbn. now rewrite app_nil_r.
  - cbn [initialize_from]. unfold try_except, bind, new_Client.
    destruct (Client_new W h url) as [msg|] eqn:E.
    + (* this attempt fails: wait if it is not the last, then go on *)
      assert (Hstep : forall j, failures n url (n - S k) (S j)
                = attempt_events n url (n - S k) ++ failures n url (n - k) j).
      { intros j. unfold failures. cbn [seq map concat].
        replace (S (n - S k)) with (n - k) by lia. reflexivity. }
      assert (Hh : (if (n - S k <? n - 1)%nat then sleep 2 else ret tt)
                     (h ++ [EvConnect url])
                   = (Ok tt, h ++ attempt_events n url (n - S k))).
      { unfold attempt_events, sleep, emit, ret.
        destruct (n - S k <? n - 1)%nat; [|reflexivity].
        now rewrite <- app_assoc. }
      rewrite Hh.
      destruct (IH (h ++ attempt_events n url (n - S k))) as [(j & Hj & Hc & Hr)|Hr];
        [lia| |].
      * left. exists (S j). split; [lia|]. rewrite Hstep.
        rewrite <- app_assoc in Hc, Hr. rewrite <- !app_assoc. now split.
      * right. rewrite Hr, Hstep. now rewrite <- app_assoc.
    + left. exists 0. split; [lia|]. unfold failures. cbn.
      rewrite app_nil_r. split; [exact E|reflexivity].
Qed.

Lemma failures_default (url : string) (j : nat) :
  j < 3 -> failures 3 url 0 j = failed_rounds url j.
Proof.
  intros Hj. destruct j as [|[|[|j]]]; try reflexivity. lia.
Qed.

Lemma failures_exhausted (url : string) : failures 3 url 0 3 = exhausted url.
Proof. reflexivity. Qed.

(** One candidate: it is bound at the first of at most three attempts
    that succeeds, after a wait of 2 behind each failed one; or all three
    fail. *)
Lemma initialize_gradio_client_default (url : string) (h : history) :
  (exists j, j < 3
     /\ Client_new W (h ++ failed_rounds url j) url = None
     /\ initialize_gradio_client W url default_max_retries h
        = (Ok (Some {| endpoint := url |}),
           h ++ failed_rounds url j ++ [EvConnect url]))
  \/ initialize_gradio_client W url default_max_retries h
     = (Ok None, h ++ exhausted url).
Proof.
  unfold initialize_gradio_client, default_max_retries.
  destruct (initialize_from_spec url 3 3 h) as [(j & Hj & Hc & Hr)|Hr]; [lia| |].
  - left. exists j. change (3 - 3) with 0 in *.
    rewrite failures_default in Hc, Hr by exact Hj. now repeat split.
  - right. now rewrite Hr.
Qed.

Lemma try_urls_spec (urls : list string) : forall h : history,
  (exists pre url post j,
      urls = pre ++ url :: post /\ j < 3
      /\ Client_new W (h ++ concat (map exhausted pre) ++ failed_rounds url j) url
         = None
      /\ try_urls W urls h
         = (Ok (Some {| endpoint := url |}),
            h ++ concat (map exhausted pre) ++ failed_rounds url j
              ++ [EvConnect url]))
  \/ try_urls W urls h = (Ok None, h ++ concat (map exhausted urls)).
Proof.
  induction urls as [|u rest IH]; intros h.
  - right. cbn. unfold ret. now rewrite app_nil_r.
  - cbn [try_urls].
    destruct (initialize_gradio_client_default u h) as [(j & Hj & Hc & Hr)|Hr].
    + left. exists [], u, rest, j. cbn [map concat app].
      rewrite (bind_ok _ _ _ _ _ Hr). now repeat split.
    + rewrite (bind_ok _ _ _ _ _ Hr).
      destruct (IH (h ++ exhausted u))
        as [(pre & url & post & j & -> & Hj & Hc & Hr')|Hr'].
      * left. exists (u :: pre), url, post, j. cbn [map concat].
        rewrite <- !app_assoc in *. now repeat split.
      * right. rewrite Hr'. cbn [map concat]. now rewrite <- !app_assoc.
Qed.

(** Resolution never raises. *)
Lemma try_urls_total (urls : list string) (h : history) :
  exists r h', try_urls W urls h = (Ok r, h').
Proof.
  destruct (try_urls_spec urls h) as [(pre & url & post & j & _ & _ & _ & E)|E];
    rewrite E; eauto.
Qed.

Lemma resolve_all_total (config : list (string * list string)) :
  forall (clients : gmap string Client) (h : history),
  exists reg h', resolve_all W config clients h = (Ok reg, h').
Proof.
  induction config as [|[name urls] rest IH]; intros clients h.
  - cbn. unfold ret. eauto.
  - cbn [resolve_all]. destruct (try_urls_total urls h) as (r & h1 & E).
    rewrite (bind_ok _ _ _ _ _ E). apply IH.
Qed.

(** Only configured names are ever bound. *)
Lemma resolve_all_other (config : list (string * list string)) (name : string) :
  forall (clients reg : gmap string Client) (h h' : history),
  name ∉ map fst config ->
  resolve_all W config clients h = (Ok reg, h') ->
  reg !! name = clients !! name.
Proof.
  induction config as [|[n urls] rest IH]; intros clients reg h h' Hn E.
  - cbn in E. unfold ret in E. now inversion E.
  - cbn [resolve_all] in E. destruct (try_urls_total urls h) as (r & h1 & E1).
    rewrite (bind_ok _ _ _ _ _ E1) in E. cbn [map fst] in Hn.
    apply not_elem_of_cons in Hn as [Hne Hn].
    rewrite (IH _ _ _ _ Hn E). destruct r; [|reflexivity].
    now rewrite lookup_insert_ne.
Qed.

(** The pass over a configuration runs its front part, then the rest from
    the registry and history the front part left. *)
Lemma resolve_all_app (front back : list (string * list string)) :
  forall (clients : gmap string Client) (h : history),
  resolve_all W (front ++ back) clients h
  = bind (resolve_all W front clients) (resolve_all W back) h.
Proof.
  induction front as [|[n urls] rest IH]; intros clients h.
  - reflexivity.
  - cbn [app resolve_all]. unfold bind at 1.
    assert (E : forall (m : M (option Client)) k,
               bind (bind m k) (resolve_all W back) h
               = match m h with
                 | (Ok a, h1) => bind (k a) (resolve_all W back) h1
                 | (Raise msg, h1) => (Raise msg, h1)
                 end).
    { intros m k. unfold bind. now destruct (m h) as [[a|msg] h1]. }
    rewrite E. destruct (try_urls W urls h) as [[r|msg] h1]; [|reflexivity].
    apply IH.
Qed.

(** The retry loop, with the outcome of every attempt it makes. *)
Lemma initialize_from_full (url : string) (n k : nat) : forall h : history,
  k <= n ->
  (exists j, j < k
     /\ (forall i, i < j ->
           connects W (h ++ failures n url (n - k) i) url = false)
     /\ connects W (h ++ failures n url (n - k) j) url = true
     /\ initialize_from W url n k h
        = (Ok (Some {| endpoint := url |}),
           h ++ failures n url (n - k) j ++ [EvConnect url]))
  \/ ((forall i, i < k ->
         connects W (h ++ failures n url (n - k) i) url = false)
      /\ initialize_from W url n k h = (Ok None, h ++ failures n url (n - k) k)).
Proof.
  induction k as [|k IH]; intros h Hk.
  - right. split; [intros i Hi; lia|].
    cbn. unfold ret, failures. cbn. now rewrite app_nil_r.
  - assert (H0 : forall a, failures n url a 0 = []) by reflexivity.
    cbn [initialize_from]. unfold try_except, bind, new_Client.
    destruct (Client_new W h url) as [msg|] eqn:E.
    + assert (Hstep : forall j, failures n url (n - S k) (S j)
                = attempt_events n url (n - S k) ++ failures n url (n - k) j).
      { intros j. unfold failures. cbn [seq map concat].
        replace (S (n - S k)) with (n - k) by lia. reflexivity. }
      assert (Hh : (if (n - S k <? n - 1)%nat then sleep 2 else ret tt)
                     (h ++ [EvConnect url])
                   = (Ok tt, h ++ attempt_events n url (n - S k))).
      { unfold attempt_events, sleep, emit, ret.
        destruct (n - S k <? n - 1)%nat; [|reflexivity].
        now rewrite <- app_assoc. }
      rewrite Hh.
      assert (Hfirst : connects W (h ++ failures n url (n - S k) 0) url = false).
      { rewrite H0, app_nil_r. unfold connects. now rewrite E. }
      assert (Hshift : forall (m : nat),
                 (forall i, i < m ->
                    connects W ((h ++ attempt_events n url (n - S k))
                                  ++ failures n url (n - k) i) url = false) ->
                 forall i, i < S m ->
                   connects W (h ++ failures n url (n - S k) i) url = false).
      { intros m Hm [|i] Hi; [exact Hfirst|].
        rewrite Hstep, app_assoc. apply Hm. lia. }
      destruct (IH (h ++ attempt_events n url (n - S k)))
        as [(j & Hj & Hfail & Hok & Hr)|[Hfail Hr]]; [lia| |].
      * left. exists (S j). split; [lia|]. split; [now apply Hshift|].
        rewrite Hstep. rewrite <- app_assoc in Hok, Hr. rewrite <- !app_assoc.
        now split.
      * right. split; [now apply Hshift|].
        rewrite Hr, Hstep. now rewrite <- app_assoc.
    + left. exists 0. split; [lia|]. split; [intros i Hi; lia|].
      rewrite H0, app_nil_r. split; [unfold connects; now rewrite E|].
      reflexivity.
Qed.

(** One candidate with the default three attempts, and the outcome of
    every attempt. *)
Lemma initialize_gradio_client_full (url : string) (h : history) :
  (exists j, j < 3
     /\ (forall i, i < j -> connects W (h ++ failed_rounds url i) url = false)
     /\ connects W (h ++ failed_rounds url j) url = true
     /\ initialize_gradio_client W url default_max_retries h
        = (Ok (Some {| endpoint := url |}),
           h ++ failed_rounds url j ++ [EvConnect url]))
  \/ ((forall i, i < 3 -> connects W (h ++ failed_rounds url i) url = false)
      /\ initialize_gradio_client W url default_max_retries h
         = (Ok None, h ++ exhausted url)).
Proof.
  unfold initialize_gradio_client, default_max_retries.
  destruct (initialize_from_full url 3 3 h)
    as [(j & Hj & Hfail & Hok & Hr)|[Hfail Hr]]; [lia| |];
    change (3 - 3) with 0 in *.
  - left. exists j. rewrite failures_default in Hok, Hr by exact Hj.
    repeat split; try assumption.
    intros i Hi. rewrite <- failures_default by lia. now apply Hfail.
  - right. split; [|now rewrite Hr].
    intros i Hi. rewrite <- failures_default by lia. now apply Hfail.
Qed.

Lemma all_attempts_fail_nil (h : history) : all_attempts_fail W h [].
Proof. intros front url back i E _. now destruct front. Qed.

Lemma all_attempts_fail_cons (h : history) (u : string) (urls : list string) :
  (forall i, i < 3 -> connects W (h ++ failed_rounds u i) u = false) ->
  all_attempts_fail W (h ++ exhausted u) urls ->
  all_attempts_fail W h (u :: urls).
Proof.
  intros Hu Hrest [|f front] url back i E Hi; cbn in E; injection E as -> ->.
  - cbn [map concat app]. now apply Hu.
  - cbn [map concat]. specialize (Hrest front url back i eq_refl Hi).
    now rewrite <- !app_assoc in *.
Qed.

(** A candidate list, with the outcome of every attempt made. *)
Lemma try_urls_full (urls : list string) : forall h : history,
  (exists pre url post j,
      urls = pre ++ url :: post /\ j < 3
      /\ all_attempts_fail W h pre
      /\ (forall i, i < j ->
            connects W (h ++ concat (map exhausted pre) ++ failed_rounds url i) url
            = false)
      /\ connects W (h ++ concat (map exhausted pre) ++ failed_rounds url j) url
         = true
      /\ try_urls W urls h
         = (Ok (Some {| endpoint := url |}),
            h ++ concat (map exhausted pre) ++ failed_rounds url j
              ++ [EvConnect url]))
  \/ (all_attempts_fail W h urls
      /\ try_urls W urls h = (Ok None, h ++ concat (map exhausted urls))).
Proof.
  induction urls as [|u rest IH]; intros h.
  - right. split; [apply all_attempts_fail_nil|].
    cbn. unfold ret. now rewrite app_nil_r.
  - cbn [try_urls].
    destruct (initialize_gradio_client_full u h)
      as [(j & Hj & Hfail & Hok & Hr)|[Hfail Hr]].
    + left. exists [], u, rest, j. cbn [map concat app].
      rewrite (bind_ok _ _ _ _ _ Hr).
      repeat split; try assumption. apply all_attempts_fail_nil.
    + rewrite (bind_ok _ _ _ _ _ Hr).
      destruct (IH (h ++ exhausted u))
        as [(pre & url & post & j & -> & Hj & Hpre & Hf & Hok & Hr')|[Hall Hr']].
      * left. exists (u :: pre), url, post, j. cbn [map concat].
        rewrite <- !app_assoc in *.
        repeat split; try assumption.
        -- apply all_attempts_fail_cons; assumption.
        -- intros i Hi. specialize (Hf i Hi). now rewrite <- !app_assoc in Hf.
      * right. split; [now apply all_attempts_fail_cons|].
        rewrite Hr'. cbn [map concat]. now rewrite <- !app_assoc.
Qed.

End Resolver.

(** ** C3: candidates are tried in order, three attempts each *)

(** C3. Resolving a candidate list tries the candidates in list order and
    binds the first construction that succeeds.  Every candidate before
    the bound one shows exactly three construction attempts with a wait
    of 2 between them ([exhausted]), and each of these attempts failed;
    the bound one shows [j < 3] attempts that failed, each followed by a
    wait of 2, and then the construction that succeeded, which ends the
    history: no later candidate is attempted and no earlier one is tried
    again.  Nothing is bound only when every candidate was exhausted and
    every one of its three attempts failed.  In particular, when the first
    of two candidates fails three times and the second succeeds at once,
    the second one's client is bound.  The start-up pass stores the
    client of a service under its name. *)
Theorem resolver_binds_first_success (W : World) :
  (forall (urls : list string) (h : history),
      (exists pre url post j,
          urls = pre ++ url :: post /\ j < 3
          /\ all_attempts_fail W h pre
          /\ (forall i, i < j ->
                connects W
                  (h ++ concat (map exhausted pre) ++ failed_rounds url i) url
                = false)
          /\ connects W (h ++ concat (map exhausted pre) ++ failed_rounds url j) url
             = true
          /\ try_urls W urls h
             = (Ok (Some {| endpoint := url |}),
                h ++ concat (map exhausted pre) ++ failed_rounds url j
                  ++ [EvConnect url]))
      \/ (all_attempts_fail W h urls
          /\ try_urls W urls h = (Ok None, h ++ concat (map exhausted urls))))
  /\ (forall (u1 u2 : string) (h : history),
        connects W h u1 = false ->
        connects W (h ++ [EvConnect u1; EvSleep 2]) u1 = false ->
        connects W (h ++ [EvConnect u1; EvSleep 2; EvConnect u1; EvSleep 2]) u1
          = false ->
        connects W (h ++ exhausted u1) u2 = true ->
        try_urls W [u1; u2] h
        = (Ok (Some {| endpoint := u2 |}), h ++ exhausted u1 ++ [EvConnect u2]))
  /\ (forall (front back : list (string * list string)) (name : string)
             (urls : list string) (clients reg : gmap string Client)
             (h h' : history),
        name ∉ map fst back ->
        resolve_all W (front ++ (name, urls) :: back) clients h = (Ok reg, h') ->
        exists reg1 h1 r h2,
          resolve_all W front clients h = (Ok reg1, h1)
          /\ try_urls W urls h1 = (Ok r, h2)
          /\ reg !! name = match r with
                           | Some c => Some c
                           | None => reg1 !! name
                           end).
Proof.
  split; [|split].
  - intros urls h. apply try_urls_full.
  - intros u1 u2 h H1 H2 H3 H4. unfold connects in *.
    cbn. unfold bind, try_except, new_Client, sleep, emit, ret. cbn.
    destruct (Client_new W h u1); [|discriminate].
    rewrite <- ?app_assoc. cbn [app].
    destruct (Client_new W (h ++ [EvConnect u1; EvSleep 2]) u1); [|discriminate].
    rewrite <- ?app_assoc. cbn [app].
    destruct (Client_new W (h ++ [EvConnect u1; EvSleep 2; EvConnect u1; EvSleep 2]) u1);
      [|discriminate].
    rewrite <- ?app_assoc. cbn [app]. unfold exhausted in H4.
    destruct (Client_new W _ u2); [discriminate|].
    now rewrite <- ?app_assoc.
  - intros front back name urls clients reg h h' Hn E.
    rewrite resolve_all_app in E.
    destruct (resolve_all_total W front clients h) as (reg1 & h1 & E1).
    rewrite (bind_ok _ _ _ _ _ E1) in E. cbn [resolve_all] in E.
    destruct (try_urls_total W urls h1) as (r & h2 & E2).
    rewrite (bind_ok _ _ _ _ _ E2) in E.
    exists reg1, h1, r, h2. split; [exact E1|]. split; [exact E2|].
    rewrite (resolve_all_other W _ _ _ _ _ _ Hn E).
    destruct r; [apply lookup_insert_eq|reflexivity].
Qed.

(** The scenario of C3 on a world where only the second address answers. *)
Lemma resolver_binds_first_success_witness :
  try_urls (fallback_world "https://virtual-try-on.hf.space/")
    [ "https://7395458a587bc50ec3.gradio.live/";
      "https://virtual-try-on.hf.space/" ] []
  = (Ok (Some {| endpoint := "https://virtual-try-on.hf.space/" |}),
     exhausted "https://7395458a587bc50ec3.gradio.live/"
       ++ [EvConnect "https://virtual-try-on.hf.space/"]).
Proof.
  apply (proj1 (proj2 (resolver_binds_first_success
                         (fallback_world "https://virtual-try-on.hf.space/"))));
    reflexivity.
Defined.

(** ** C4: a service without candidates *)

(** C4. A service whose candidate list is empty causes no construction
    attempt: resolving the empty list returns nothing and leaves the
    history as it was, the start-up pass runs exactly as if the service
    were not configured, and the service is unbound in the resulting
    registry. *)
Theorem empty_candidates_unbound (W : World)
    (front back : list (string * list string)) (name : string) (h : history) :
  name ∉ map fst (front ++ back) ->
  try_urls W [] h = (Ok None, h)
  /\ startup W (front ++ (name, []) :: back) h = startup W (front ++ back) h
  /\ exists reg h',
       startup W (front ++ (name, []) :: back) h = (Ok reg, h')
       /\ reg !! name = None.
Proof.
  intros Hn.
  assert (E : startup W (front ++ (name, []) :: back) h = startup W (front ++ back) h).
  { unfold startup. rewrite !resolve_all_app. unfold bind.
    destruct (resolve_all W front ∅ h) as [[reg1|msg] h1]; reflexivity. }
  split; [reflexivity|]. split; [exact E|].
  rewrite E. unfold startup.
  destruct (resolve_all_total W (front ++ back) ∅ h) as (reg & h' & E').
  exists reg, h'. split; [exact E'|].
  rewrite (resolve_all_other W _ _ _ _ _ _ Hn E'). apply lookup_empty.
Qed.

Lemma empty_candidates_unbound_witness :
  try_urls calm_world [] [] = (Ok None, [])
  /\ startup calm_world ([("chatbot", ["a"])] ++ ("occasion", []) :: [("text_to_dress", ["b"])]) []
     = startup calm_world ([("chatbot", ["a"])] ++ [("text_to_dress", ["b"])]) []
  /\ exists reg h',
       startup calm_world
         ([("chatbot", ["a"])] ++ ("occasion", []) :: [("text_to_dress", ["b"])]) []
       = (Ok reg, h')
       /\ reg !! "occasion" = None.
Proof.
  apply (empty_candidates_unbound calm_world).
  apply (bool_decide_unpack _). vm_compute. exact I.
Defined.

(** ** C5: time-stamped file names *)

Lemma digit_inj (a b : Z) : digit a = digit b -> (a mod 10 = b mod 10)%Z.
Proof.
  unfold digit. intros E.
  apply (f_equal nat_of_ascii) in E.
  pose proof (Z.mod_pos_bound a 10 eq_refl) as Ha.
  pose proof (Z.mod_pos_bound b 10 eq_refl) as Hb.
  rewrite !nat_ascii_embedding in E by lia. lia.
Qed.

Lemma pad2_inj (a b : Z) :
  (0 <= a < 100)%Z -> (0 <= b < 100)%Z -> pad2 a = pad2 b -> a = b.
Proof.
  unfold pad2. intros Ha Hb E. injection E as E1 E2.
  apply digit_inj in E1, E2. Z.to_euclidean_division_equations. lia.
Qed.

Lemma pad4_inj (a b : Z) :
  (0 <= a < 10000)%Z -> (0 <= b < 10000)%Z -> pad4 a = pad4 b -> a = b.
Proof.
  unfold pad4. intros Ha Hb E. injection E as E1 E2 E3 E4.
  apply digit_inj in E1, E2, E3, E4. Z.to_euclidean_division_equations. lia.
Qed.

Lemma strftime_length (t : datetime) : String.length (strftime t) = 15.
Proof. reflexivity. Qed.

Lemma append_cancel_r (s1 : string) : forall s2 x : string,
  String.length s1 = String.length s2 -> s1 +:+ x = s2 +:+ x -> s1 = s2.
Proof.
  induction s1 as [|c s1 IH]; intros [|d s2] x L E; cbn in *;
    try reflexivity; try discriminate.
  injection E as -> E. f_equal. apply (IH s2 x); [lia|exact E].
Qed.

(** Two file names with the same logical name agree only if their stamps do. *)
Lemma stamped_name_inj (t1 t2 : datetime) (name : string) :
  strftime t1 +:+ "_" +:+ name = strftime t2 +:+ "_" +:+ name ->
  strftime t1 = strftime t2.
Proof. apply append_cancel_r. now rewrite !strftime_length. Qed.

Lemma strftime_inj (t1 t2 : datetime) :
  valid_datetime t1 -> valid_datetime t2 -> strftime t1 = strftime t2 -> t1 = t2.
Proof.
  intros (Hy1 & Hm1 & Hd1 & HH1 & HM1 & HS1) (Hy2 & Hm2 & Hd2 & HH2 & HM2 & HS2) E.
  assert (Ey : pad4 (year t1) = pad4 (year t2)
               /\ pad2 (month t1) = pad2 (month t2)
               /\ pad2 (day t1) = pad2 (day t2)
               /\ pad2 (hour t1) = pad2 (hour t2)
               /\ pad2 (minute t1) = pad2 (minute t2)
               /\ pad2 (second t1) = pad2 (second t2)).
  { unfold strftime, pad4, pad2 in *. cbn [String.append] in E.
    injection E. intros. repeat split; congruence. }
  destruct Ey as (Ey & Em & Ed & EH & EM & ES).
  apply pad4_inj in Ey; [|lia..].
  apply pad2_inj in Em, Ed, EH, EM, ES; [|lia..].
  destruct t1, t2; cbn in *; congruence.
Qed.

(** C5. Two calls of the file-name generator with the same logical name,
    made at moments whose clock readings differ (to the second), return
    different names; each name is the [YYYYMMDD_HHMMSS] stamp of its
    moment, fifteen characters long, joined by an underscore to the
    logical name.  Generating a name causes no event. *)
Theorem unique_filenames_differ (W : World) (name : string) (h1 h2 : history) :
  valid_datetime (now W h1) ->
  valid_datetime (now W h2) ->
  now W h1 <> now W h2 ->
  exists f1 f2,
    generate_unique_filename W name h1 = (Ok f1, h1)
    /\ generate_unique_filename W name h2 = (Ok f2, h2)
    /\ f1 = strftime (now W h1) +:+ "_" +:+ name
    /\ f2 = strftime (now W h2) +:+ "_" +:+ name
    /\ String.length (strftime (now W h1)) = 15
    /\ String.length (strftime (now W h2)) = 15
    /\ f1 <> f2.
Proof.
  intros V1 V2 Hne.
  exists (strftime (now W h1) +:+ "_" +:+ name),
         (strftime (now W h2) +:+ "_" +:+ name).
  repeat split; try reflexivity.
  intros E. apply Hne. apply strftime_inj; [exact V1|exact V2|].
  exact (stamped_name_inj _ _ _ E).
Qed.

Lemma unique_filenames_differ_witness :
  exists f1 f2,
    generate_unique_filename ticking_world "result.png" [] = (Ok f1, [])
    /\ generate_unique_filename ticking_world "result.png" [EvSleep 2]
       = (Ok f2, [EvSleep 2])
    /\ f1 = "20240309_070500_result.png"
    /\ f2 = "20240309_070501_result.png"
    /\ String.length (strftime (now ticking_world [])) = 15
    /\ String.length (strftime (now ticking_world [EvSleep 2])) = 15
    /\ f1 <> f2.
Proof.
  apply (unique_filenames_differ ticking_world "result.png" [] [EvSleep 2]).
  - unfold valid_datetime. cbn. lia.
  - unfold valid_datetime. cbn. lia.
  - apply (bool_decide_unpack _). vm_compute. exact I.
Defined.

(** ** C6: the occasion route *)

Lemma split_on_nonempty (sep : ascii) (s : string) : split_on sep s <> [].
Proof.
  destruct s as [|c s]; cbn; [discriminate|].
  destruct (Ascii.eqb c sep); [discriminate|].
  destruct (split_on sep s); discriminate.
Qed.

Lemma join_cons (sep piece : string) (pieces : list string) :
  pieces <> [] -> join sep (piece :: pieces) = piece +:+ sep +:+ join sep pieces.
Proof. destruct pieces; [contradiction|reflexivity]. Qed.

(** Joining the pieces with the separator gives the string back. *)
Lemma join_split_on (sep : ascii) (s : string) :
  join (String sep EmptyString) (split_on sep s) = s.
Proof.
  induction s as [|c s IH]; [reflexivity|].
  pose proof (split_on_nonempty sep s) as Hne.
  cbn [split_on]. destruct (Ascii.eqb_spec c sep) as [->|Hc].
  - rewrite join_cons by exact Hne. rewrite IH. reflexivity.
  - destruct (split_on sep s) as [|p ps]; [contradiction|].
    destruct ps as [|q qs].
    + cbn [join] in *. now rewrite IH.
    + rewrite join_cons by discriminate. rewrite join_cons in IH by discriminate.
      rewrite <- IH. reflexivity.
Qed.

(** One piece more than there are separators. *)
Lemma split_on_length (sep : ascii) (s : string) :
  length (split_on sep s) = S (count_char sep s).
Proof.
  induction s as [|c s IH]; [reflexivity|].
  cbn [split_on count_char]. destruct (Ascii.eqb c sep).
  - cbn. now rewrite IH.
  - destruct (split_on sep s); cbn in *; lia.
Qed.

(** No piece contains the separator. *)
Lemma split_on_pieces (sep : ascii) (s : string) :
  Forall (fun piece => count_char sep piece = 0) (split_on sep s).
Proof.
  induction s as [|c s IH]; [repeat constructor|].
  cbn [split_on]. destruct (Ascii.eqb c sep) eqn:Ec.
  - constructor; [reflexivity|exact IH].
  - destruct (split_on sep s) as [|p ps].
    + constructor; [|constructor]. cbn. now rewrite Ec.
    + inversion IH as [|? ? Hp Hps]; subst. constructor; [|exact Hps].
      cbn. now rewrite Ec.
Qed.

(** A trailing separator adds an empty piece at the end. *)
Lemma split_on_snoc (sep : ascii) (s : string) :
  split_on sep (s +:+ String sep EmptyString) = split_on sep s ++ [EmptyString].
Proof.
  induction s as [|c s IH].
  - change (EmptyString +:+ String sep EmptyString) with (String sep EmptyString).
    cbn [split_on]. now rewrite Ascii.eqb_refl.
  - change (String c s +:+ String sep EmptyString)
      with (String c (s +:+ String sep EmptyString)).
    cbn [split_on]. rewrite IH. destruct (Ascii.eqb c sep); [reflexivity|].
    pose proof (split_on_nonempty sep s) as Hne.
    destruct (split_on sep s); [contradiction|reflexivity].
Qed.

(** A leading or a trailing separator leaves an empty piece. *)
Lemma split_on_edges (sep : ascii) (s : string) :
  head (split_on sep (String sep s)) = Some EmptyString
  /\ last (split_on sep (s +:+ String sep EmptyString)) = Some EmptyString.
Proof.
  split.
  - cbn [split_on]. now rewrite Ascii.eqb_refl.
  - rewrite split_on_snoc. apply last_snoc.
Qed.

(** C6. With the occasion client bound, a request whose [color] and
    [selectedOccasion] are the non-empty strings [c] and [o] makes one
    remote call, with the phrase [c shirt for o]; when the remote returns
    the string [r] the route answers 200 with [newItems] the pieces of
    [r] cut at every comma and [showRecommendations] true.  The pieces
    are not filtered: joined by commas they give [r] back, there is one
    more of them than commas in [r], and a leading or trailing comma
    leaves an empty piece.  The remote result [shirt,shoes,tie] gives the
    three items shirt, shoes, tie. *)
Theorem handleocassion_splits_on_commas (W : World)
    (clients : gmap string Client) (occasion : Client) (req : request)
    (fields : list (string * json)) (c o r : string) (h : history) :
  clients !! "occasion" = Some occasion ->
  req_json req = inr (JObj fields) ->
  dict_get "color" fields = Some (JStr c) ->
  dict_get "selectedOccasion" fields = Some (JStr o) ->
  c <> "" -> o <> "" ->
  remote_predict W h occasion [AText (JStr (c +:+ " shirt for " +:+ o))]
    = inr (JStr r) ->
  handleocassion W clients req h
  = (Ok {| body := JObj [ ("newItems", JArr (map JStr (split_on "," r)));
                          ("showRecommendations", JBool true) ];
           status := 200 |},
     h ++ [EvRemote occasion [AText (JStr (c +:+ " shirt for " +:+ o))]])
  /\ join "," (split_on "," r) = r
  /\ length (split_on "," r) = S (count_char "," r)
  /\ Forall (fun piece => count_char "," piece = 0) (split_on "," r)
  /\ (forall s, head (split_on "," (String "," s)) = Some "")
  /\ (forall s, last (split_on "," (s +:+ ",")) = Some "")
  /\ split_on "," "shirt,shoes,tie" = ["shirt"; "shoes"; "tie"].
Proof.
  intros Hc Hj Hcol Hocc Hcne Hone Hr.
  split; [|split; [apply join_split_on|split; [apply split_on_length|
           split; [apply split_on_pieces|split; [|split; [|reflexivity]]]]]].
  - unfold handleocassion, handleocassion_body, try_except, bind, get_json, get,
      predict_call, split_result, ret, jsonify.
    rewrite Hc, Hj, Hcol, Hocc. cbn [default from_option id truthy fmt].
    apply String.eqb_neq in Hcne, Hone. rewrite Hcne, Hone. cbn [negb orb].
    now rewrite Hr.
  - intros s. apply (split_on_edges "," s).
  - intros s. apply (split_on_edges "," s).
Qed.

Lemma handleocassion_splits_on_commas_witness :
  handleocassion calm_world occasion_only occasion_request []
  = (Ok {| body := JObj [ ("newItems", JArr [JStr "shirt"; JStr "shoes"; JStr "tie"]);
                          ("showRecommendations", JBool true) ];
           status := 200 |},
     [EvRemote {| endpoint := "https://fashion-occasion.hf.space/" |}
        [AText (JStr "red shirt for wedding")]]).
Proof.
  apply (handleocassion_splits_on_commas calm_world occasion_only
           {| endpoint := "https://fashion-occasion.hf.space/" |} occasion_request
           [ ("color", JStr "red"); ("selectedOccasion", JStr "wedding") ]
           "red" "wedding" "shirt,shoes,tie" []);
    try reflexivity; discriminate.
Defined.

(** ** C7: the health route *)

(** The services object has one entry per listed name, in order. *)
Lemma health_services_names (names : list string) (clients : gmap string Client) :
  map fst (health_services names clients) = names.
Proof.
  unfold health_services. induction names as [|n names IH]; [reflexivity|].
  cbn [map fst]. now rewrite IH.
Qed.

(** What the services object says about a name. *)
Lemma health_services_get (names : list string) (clients : gmap string Client)
    (name : string) :
  dict_get name (health_services names clients)
  = if decide (name ∈ names)
    then Some (JStr (if decide (is_Some (clients !! name))
                     then "available" else "unavailable"))
    else None.
Proof.
  induction names as [|n names IH].
  - cbn. destruct (decide (name ∈ [])) as [Hin|_]; [|reflexivity].
    now apply elem_of_nil in Hin.
  - cbn [health_services map dict_get]. fold (health_services names clients).
    rewrite IH.
    destruct (decide (name ∈ names)) as [Hin|Hnin].
    + rewrite (decide_True (P := name ∈ n :: names))
        by (apply elem_of_cons; now right).
      reflexivity.
    + destruct (String.eqb_spec n name) as [->|Hne].
      * rewrite (decide_True (P := name ∈ name :: names))
          by (apply elem_of_cons; now left).
        reflexivity.
      * rewrite (decide_False (P := name ∈ n :: names)); [reflexivity|].
        intros [E|Hin]%elem_of_cons; [now subst|contradiction].
Qed.

(** C7. After start-up over the configured services, the health route
    answers 200 without any event; the [services] object of its answer
    lists exactly the configured names, in order, and gives a configured
    name the status [available] if and only if the resolution pass bound
    a client under that name, and [unavailable] if and only if it bound
    none. *)
Theorem health_reflects_registry (W : World) (h : history) :
  exists reg h' fields,
    startup W CLIENTS h = (Ok reg, h')
    /\ (forall h'', exists d e,
          health_check W reg h''
          = (Ok {| body := JObj [ ("status", JStr "healthy");
                                  ("directories", d);
                                  ("directories_exist", e);
                                  ("services", JObj fields) ];
                   status := 200 |}, h''))
    /\ map fst fields = map fst CLIENTS
    /\ map fst fields = ["virtual_tryon"; "chatbot"; "text_to_dress"; "occasion"]
    /\ (forall name, name ∈ map fst CLIENTS ->
          (dict_get name fields = Some (JStr "available")
             <-> is_Some (reg !! name))
          /\ (dict_get name fields = Some (JStr "unavailable")
             <-> reg !! name = None))
    /\ (forall name, name ∉ map fst CLIENTS -> dict_get name fields = None).
Proof.
  destruct (resolve_all_total W CLIENTS ∅ h) as (reg & h' & E).
  exists reg, h', (health_services (map fst CLIENTS) reg).
  split; [exact E|]. split; [|split; [apply health_services_names|
    split; [apply health_services_names|split]]].
  - intros h''. eexists _, _. reflexivity.
  - intros name Hin. rewrite health_services_get, decide_True by exact Hin.
    destruct (decide (is_Some (reg !! name))) as [Hs|Hn]; split; split;
      try discriminate; try tauto; try (intros _; reflexivity).
    + intros Hnone. rewrite Hnone in Hs. now destruct Hs.
    + intros _. now apply eq_None_not_Some.
  - intros name Hnin. rewrite health_services_get. now rewrite decide_False.
Qed.

Lemma health_reflects_registry_witness :
  exists reg h' fields,
    startup calm_world CLIENTS [] = (Ok reg, h')
    /\ map fst fields = ["virtual_tryon"; "chatbot"; "text_to_dress"; "occasion"]
    /\ (dict_get "chatbot" fields = Some (JStr "available")
        <-> is_Some (reg !! "chatbot")).
Proof.
  destruct (health_reflects_registry calm_world [])
    as (reg & h' & fields & E & _ & _ & Hnames & Hstatus & _).
  exists reg, h', fields. split; [exact E|]. split; [exact Hnames|].
  apply (Hstatus "chatbot"). apply (bool_decide_unpack _). vm_compute. exact I.
Defined.

(** ** C8 and C10: staging a download *)

Lemma write_chunks_spec (path : string) (chunks : list (list byte)) :
  forall h : history,
  write_chunks path chunks h = (Ok tt, h ++ map (EvWrite path) chunks).
Proof.
  induction chunks as [|chunk rest IH]; intros h.
  - cbn. unfold ret. now rewrite app_nil_r.
  - cbn [write_chunks map]. unfold bind, emit. rewrite IH.
    now rewrite <- app_assoc.
Qed.

(** The helper, evaluated: what it returns and what it does, by the answer
    of the HTTP GET on the stripped address. *)
Lemma download_image_eval (W : World) (url : string) (h : history) :
  download_image W url h
  = match requests_get W h (strip url) with
    | TransportError _ => (Ok None, h ++ [EvHttpGet (strip url)])
    | Response code stream broken =>
        if (code =? 200)%Z then
          (Ok (match broken with
               | None => Some downloaded_path
               | Some _ => None
               end),
           h ++ [EvHttpGet (strip url); EvOpen downloaded_path]
             ++ map (EvWrite downloaded_path) (iter_content stream 128))
        else (Ok None, h ++ [EvHttpGet (strip url)])
    end.
Proof.
  unfold download_image, try_except, bind, http_get.
  destruct (requests_get W h (strip url)) as [msg|code stream broken]; [reflexivity|].
  destruct (code =? 200)%Z; [|reflexivity].
  unfold emit. fold downloaded_path. rewrite write_chunks_spec.
  rewrite <- !app_assoc. cbn [app].
  destruct broken; reflexivity.
Qed.

Lemma lstrip_whitespace (l s : string) :
  whitespace l -> lstrip (l +:+ s) = lstrip s.
Proof.
  unfold whitespace. induction l as [|c l IH]; intros Hl; [reflexivity|].
  cbn [list_ascii_of_string] in Hl. inversion Hl as [|? ? Hc Hl']; subst.
  change (String c l +:+ s) with (String c (l +:+ s)).
  cbn [lstrip]. rewrite Hc. now apply IH.
Qed.

Lemma rstrip_whitespace (r : string) : whitespace r -> rstrip r = EmptyString.
Proof.
  unfold whitespace. induction r as [|c r IH]; intros Hr; [reflexivity|].
  cbn [list_ascii_of_string] in Hr. inversion Hr as [|? ? Hc Hr']; subst.
  cbn [rstrip]. rewrite IH by exact Hr'. now rewrite Hc.
Qed.

Lemma rstrip_trimmed (s r : string) :
  match last_char s with
  | Some d => isspace d = false
  | None => True
  end ->
  whitespace r -> rstrip (s +:+ r) = s.
Proof.
  intros Hs Hr. induction s as [|c s IH].
  - now apply rstrip_whitespace.
  - change (String c s +:+ r) with (String c (s +:+ r)). cbn [rstrip].
    cbn [last_char] in Hs. destruct s as [|d s].
    + change (EmptyString +:+ r) with r. rewrite rstrip_whitespace by exact Hr.
      cbn in Hs. now rewrite Hs.
    + rewrite IH; [reflexivity|].
      destruct (last_char (String d s)) as [e|] eqn:E; [exact Hs|].
      cbn in E. destruct (last_char s); discriminate.
Qed.

(** Stripping removes the whitespace around a trimmed string. *)
Lemma strip_surrounded (l s r : string) :
  whitespace l -> whitespace r -> trimmed s = true -> strip (l +:+ s +:+ r) = s.
Proof.
  intros Hl Hr Hs. unfold strip. rewrite lstrip_whitespace by exact Hl.
  destruct s as [|c s].
  - change (EmptyString +:+ r) with r.
    replace (lstrip r) with EmptyString; [reflexivity|].
    symmetry. clear -Hr. unfold whitespace in Hr.
    induction r as [|c r IH]; [reflexivity|].
    cbn [list_ascii_of_string] in Hr. inversion Hr as [|? ? Hc Hr']; subst.
    cbn [lstrip]. rewrite Hc. now apply IH.
  - unfold trimmed in Hs. apply andb_prop in Hs as [Hfirst Hlast].
    apply negb_true_iff in Hfirst.
    change (String c s +:+ r) with (String c (s +:+ r)). cbn [lstrip].
    rewrite Hfirst. change (String c (s +:+ r)) with (String c s +:+ r).
    apply rstrip_trimmed; [|exact Hr].
    destruct (last_char (String c s)); [|exact I]. now apply negb_true_iff.
Qed.

Lemma append_empty_r (s : string) : s +:+ EmptyString = s.
Proof.
  induction s as [|c s IH]; [reflexivity|].
  change (String c s +:+ EmptyString) with (String c (s +:+ EmptyString)).
  now rewrite IH.
Qed.

(** C8 does not hold as to the size of the writes.  On a response whose
    stream, read 128 bytes at a time, yields pieces of 5, 5 and 2 bytes
    (a chunked transfer of twelve bytes), the helper returns the staged
    path after three writes of 5, 5 and 2 bytes: the writes follow the
    pieces of the stream and have no fixed size. *)
Lemma download_writes_follow_the_stream :
  download_image chunked_world "http://example.org/shirt.png" []
  = (Ok (Some downloaded_path),
     [ EvHttpGet "http://example.org/shirt.png";
       EvOpen downloaded_path;
       EvWrite downloaded_path [x01; x02; x03; x04; x05]%byte;
       EvWrite downloaded_path [x06; x07; x08; x09; x0a]%byte;
       EvWrite downloaded_path [x0b; x0c]%byte ])
  /\ ~ (exists size,
         forall data,
           EvWrite downloaded_path data
             ∈ snd (download_image chunked_world "http://example.org/shirt.png" []) ->
           length data = size).
Proof.
  split; [reflexivity|]. intros [size Hsize].
  assert (E5 : length [x01; x02; x03; x04; x05]%byte = size).
  { apply Hsize. cbn. do 2 (apply elem_of_cons; right).
    apply elem_of_cons. now left. }
  assert (E2 : length [x0b; x0c]%byte = size).
  { apply Hsize. cbn. do 4 (apply elem_of_cons; right).
    apply elem_of_cons. now left. }
  cbn in E5, E2. congruence.
Qed.

(** C8. Staging a download never raises.  When the GET on the address
    answers 200 and the stream is delivered whole, the helper opens the
    fixed file [downloaded_image.png] of the uploads directory, writes to
    it, one write each and in order, the pieces the stream yields when it
    is read 128 bytes at a time, and returns that path.  On any other
    status it returns nothing, having done nothing but the GET; on a
    transport failure of the GET, or of the stream after a 200, it
    returns nothing as well. *)
Theorem download_image_total (W : World) (url : string) (h : history) :
  (forall stream,
      requests_get W h (strip url) = Response 200 stream None ->
      download_image W url h
      = (Ok (Some downloaded_path),
         h ++ [EvHttpGet (strip url); EvOpen downloaded_path]
           ++ map (EvWrite downloaded_path) (iter_content stream 128)))
  /\ (forall code stream broken,
        code <> 200%Z ->
        requests_get W h (strip url) = Response code stream broken ->
        download_image W url h = (Ok None, h ++ [EvHttpGet (strip url)]))
  /\ (forall msg,
        requests_get W h (strip url) = TransportError msg ->
        download_image W url h = (Ok None, h ++ [EvHttpGet (strip url)]))
  /\ (forall stream msg,
        requests_get W h (strip url) = Response 200 stream (Some msg) ->
        fst (download_image W url h) = Ok None)
  /\ (exists r h', download_image W url h = (Ok r, h'))
  /\ downloaded_path
     = "C:\Users\deeks\fashion-recommendation-sys\backend\uploads\downloaded_image.png".
Proof.
  rewrite download_image_eval.
  split; [|split; [|split; [|split; [|split; [|reflexivity]]]]].
  - intros stream E. now rewrite E.
  - intros code stream broken Hcode E. rewrite E.
    apply Z.eqb_neq in Hcode. now rewrite Hcode.
  - intros msg E. now rewrite E.
  - intros stream msg E. now rewrite E.
  - destruct (requests_get W h (strip url)) as [msg|code stream broken]; [eauto|].
    destruct (code =? 200)%Z; eauto.
Qed.

Lemma download_image_total_witness :
  download_image calm_world " http://example.org/shirt.png " []
  = (Ok (Some downloaded_path),
     [ EvHttpGet "http://example.org/shirt.png";
       EvOpen downloaded_path;
       EvWrite downloaded_path [x01; x02; x03]%byte ]).
Proof.
  apply (proj1 (download_image_total calm_world
                  " http://example.org/shirt.png " [])
               (fun _ => [[x01; x02; x03]%byte])).
  reflexivity.
Defined.

(** C10. The address is stripped of leading and trailing whitespace
    before the GET is issued: the first thing the helper does is the GET
    on the stripped address, two addresses with the same stripped form are
    staged identically, and an address wrapped in whitespace is staged
    exactly as the address itself. *)
Theorem download_image_strips_url (W : World) (url : string) (h : history) :
  (exists r rest,
      download_image W url h = (Ok r, h ++ EvHttpGet (strip url) :: rest))
  /\ (forall url', strip url' = strip url ->
        download_image W url' h = download_image W url h)
  /\ (forall l r,
        whitespace l -> whitespace r -> trimmed url = true ->
        strip (l +:+ url +:+ r) = url
        /\ strip url = url
        /\ download_image W (l +:+ url +:+ r) h = download_image W url h).
Proof.
  split; [|split].
  - rewrite download_image_eval.
    destruct (requests_get W h (strip url)) as [msg|code stream broken]; [eauto|].
    destruct (code =? 200)%Z; eauto.
  - intros url' E. rewrite !download_image_eval. now rewrite E.
  - intros l r Hl Hr Ht.
    assert (E1 : strip (l +:+ url +:+ r) = url) by now apply strip_surrounded.
    assert (E2 : strip url = url).
    { rewrite <- (append_empty_r url) at 1.
      change (url +:+ EmptyString) with (EmptyString +:+ url +:+ EmptyString).
      apply strip_surrounded; [constructor|constructor|exact Ht]. }
    split; [exact E1|]. split; [exact E2|].
    rewrite !download_image_eval. now rewrite E1, E2.
Qed.

Lemma download_image_strips_url_witness :
  strip ("  " +:+ "http://example.org/shirt.png" +:+ " ")
  = "http://example.org/shirt.png"
  /\ strip "http://example.org/shirt.png" = "http://example.org/shirt.png"
  /\ download_image calm_world
       ("  " +:+ "http://example.org/shirt.png" +:+ " ") []
     = download_image calm_world "http://example.org/shirt.png" [].
Proof.
  apply (proj2 (proj2 (download_image_strips_url calm_world
                         "http://example.org/shirt.png" []))).
  - repeat constructor.
  - repeat constructor.
  - reflexivity.
Defined.

(** ** C2: unavailable services *)

(** C2. When the registry holds no client for the service of a route, the
    route answers 503 and the history is unchanged: nothing is staged,
    downloaded or sent.  This holds for every request, well formed or
    not, so the availability test comes before any look at the request. *)
Theorem unavailable_is_503 (W : World) (clients : gmap string Client)
    (r : route) (cap : string) (req : request) (h : history) :
  capability r = Some cap ->
  clients !! cap = None ->
  exists message,
    dispatch W clients r req h
    = (Ok {| body := JObj [("error", JStr message)]; status := 503 |}, h).
Proof.
  intros Hcap Hnone.
  destruct r; cbn in Hcap; try discriminate; injection Hcap as <-;
    cbn [dispatch];
    unfold predict, predict_body, upload_ocassion, upload_ocassion_body,
      upload_files, upload_files_body, handle_prompt, handle_prompt_body,
      handleocassion, handleocassion_body, try_except, ret, jsonify;
    rewrite Hnone; eauto.
Qed.

Lemma unavailable_is_503_witness :
  exists message,
    dispatch calm_world ∅ UploadOcassion unnamed_file_request []
    = (Ok {| body := JObj [("error", JStr message)]; status := 503 |}, []).
Proof.
  apply (unavailable_is_503 calm_world ∅ UploadOcassion "virtual_tryon");
    reflexivity.
Defined.

(** ** C1: requests that lack a required field *)

(** C1.  A request that lacks a required field is not always answered 400
    before anything else happens.  The chat route uses [text] without
    looking for it first: with the chat client bound, a JSON object
    without [text] is answered 500 with the KeyError's text, and no 400
    answer is possible.  The occasion try-on route tests the file name
    only after the download: with the try-on client bound, a file part
    with an empty name is answered 400 only after the GET and the staging
    writes have happened. *)
Lemma missing_field_not_always_400 :
  missing_required_field Predict no_request = true
  /\ dispatch calm_world all_bound Predict no_request []
     = (Ok {| body := JObj [("error", JStr "'text'")]; status := 500 |}, [])
  /\ ~ (exists resp,
          dispatch calm_world all_bound Predict no_request [] = (Ok resp, [])
          /\ status resp = 400)
  /\ missing_required_field UploadOcassion unnamed_file_request = true
  /\ dispatch calm_world all_bound UploadOcassion unnamed_file_request []
     = (Ok {| body := JObj [("error", JStr "No selected file")]; status := 400 |},
        [ EvHttpGet "http://example.org/shirt.png";
          EvOpen downloaded_path;
          EvWrite downloaded_path [x01; x02; x03]%byte ]).
Proof.
  split; [reflexivity|]. split; [reflexivity|]. split.
  - intros (resp & E & Hs).
    assert (E' : dispatch calm_world all_bound Predict no_request []
                 = (Ok {| body := JObj [("error", JStr "'text'")]; status := 500 |}, []))
      by reflexivity.
    rewrite E' in E. injection E as <-. discriminate Hs.
  - split; reflexivity.
Qed.

(** The routes that do test their fields first.  With the service of the
    route bound: the try-on route turns away a request without the
    [uploadedFile] part or with an empty file name, the occasion try-on
    route a request without the [uploadedFile] part, the prompt route a
    JSON object whose [prompt] is absent or empty, and the occasion route
    a JSON object whose [color] or [selectedOccasion] is absent or empty;
    each answers 400 and leaves the history unchanged, so nothing has
    been staged, downloaded or sent.  The chat route has no such test: a
    JSON object without [text] is answered 500 with the KeyError's text,
    again with the history unchanged. *)
Theorem missing_field_rejected (W : World) (clients : gmap string Client)
    (r : route) (cap : string) (c : Client) (req : request) (h : history) :
  capability r = Some cap ->
  clients !! cap = Some c ->
  (rejected_up_front r req = true ->
     exists message,
       dispatch W clients r req h
       = (Ok {| body := JObj [("error", JStr message)]; status := 400 |}, h))
  /\ (r = Predict -> lacks_key req "text" = true ->
       dispatch W clients r req h
       = (Ok {| body := JObj [("error", JStr "'text'")]; status := 500 |}, h)).
Proof.
  intros Hcap Hc. split.
  - intros Hrej.
    destruct r; cbn in Hcap, Hrej; try discriminate; injection Hcap as <-;
      cbn [dispatch];
      unfold upload_ocassion, upload_ocassion_body, upload_files,
        upload_files_body, handle_prompt, handle_prompt_body, handleocassion,
        handleocassion_body, try_except, bind, get_json, get, jsonify;
      rewrite Hc.
    + (* /uploadocassion *)
      unfold no_file_part in Hrej.
      destruct (req_files req !! "uploadedFile"); [discriminate|].
      unfold ret. eauto.
    + (* /upload *)
      unfold no_file_part, empty_filename in Hrej.
      destruct (req_files req !! "uploadedFile") as [f|]; [|unfold ret; eauto].
      cbn [orb] in Hrej. rewrite Hrej. unfold ret. eauto.
    + (* /handleprompt *)
      unfold falsy_field in Hrej.
      destruct (req_json req) as [msg|[]]; try discriminate.
      unfold ret. cbv beta iota. rewrite Hrej. eauto.
    + (* /handleocassion *)
      unfold falsy_field in Hrej.
      destruct (req_json req) as [msg|[]]; try discriminate.
      unfold ret. cbv beta iota. rewrite Hrej. eauto.
  - intros -> Hlack. cbn in Hcap. injection Hcap as <-.
    cbn [dispatch].
    unfold predict, predict_body, try_except, bind, get_json, subscript,
      error_500, ret, raise, jsonify.
    rewrite Hc. unfold lacks_key in Hlack.
    destruct (req_json req) as [msg|[]]; try discriminate.
    destruct (dict_get "text" fields); [discriminate|reflexivity].
Qed.

Lemma missing_field_rejected_witness :
  exists message,
    dispatch calm_world all_bound HandleOcassion no_request []
    = (Ok {| body := JObj [("error", JStr message)]; status := 400 |}, []).
Proof.
  apply (proj1 (missing_field_rejected calm_world all_bound HandleOcassion
                  "occasion" {| endpoint := "https://fashion-occasion.hf.space/" |}
                  no_request [] eq_refl eq_refl)).
  reflexivity.
Defined.

(** ** C9: exceptions stop at the route *)

Lemma health_check_ok (W : World) (clients : gmap string Client) (h : history) :
  exists resp, health_check W clients h = (Ok resp, h).
Proof. eexists. reflexivity. Qed.

Lemma predict_call_raises (W : World) (c : Client) (args : list rarg)
    (msg : string) (h : history) :
  remote_predict W h c args = inl msg ->
  predict_call W c args h = (Raise msg, h ++ [EvRemote c args]).
Proof. intros E. unfold predict_call. now rewrite E. Qed.

(** C9. No route lets an exception out: every route, on every request,
    registry and history, returns a response.  Whenever the [try] block
    of a POST route raises, the route answers 500 with the exception's
    text, unchanged, in the [error] field; a block that returns is left
    alone.  In particular a remote call that raises, in the chat, prompt,
    occasion and both try-on routes, is answered 500 with the text the
    client raised. *)
Theorem routes_catch_exceptions (W : World) (clients : gmap string Client) :
  (forall r req h, exists resp h', dispatch W clients r req h = (Ok resp, h'))
  /\ (forall r req h msg h',
        route_body W clients r req h = (Raise msg, h') ->
        dispatch W clients r req h
        = (Ok {| body := JObj [("error", JStr msg)]; status := 500 |}, h'))
  /\ (forall r req h resp h',
        route_body W clients r req h = (Ok resp, h') ->
        dispatch W clients r req h = (Ok resp, h'))
  /\ (forall chatbot req fields v msg h,
        clients !! "chatbot" = Some chatbot ->
        req_json req = inr (JObj fields) ->
        dict_get "text" fields = Some v ->
        remote_predict W h chatbot [AText v] = inl msg ->
        predict W clients req h
        = (Ok {| body := JObj [("error", JStr msg)]; status := 500 |},
           h ++ [EvRemote chatbot [AText v]]))
  /\ (forall dress req fields v msg h,
        clients !! "text_to_dress" = Some dress ->
        req_json req = inr (JObj fields) ->
        dict_get "prompt" fields = Some v ->
        truthy v = true ->
        remote_predict W h dress [AText v] = inl msg ->
        handle_prompt W clients req h
        = (Ok {| body := JObj [("error", JStr msg)]; status := 500 |},
           h ++ [EvRemote dress [AText v]]))
  /\ (forall occasion req fields c o msg h,
        clients !! "occasion" = Some occasion ->
        req_json req = inr (JObj fields) ->
        dict_get "color" fields = Some c ->
        dict_get "selectedOccasion" fields = Some o ->
        truthy c = true -> truthy o = true ->
        remote_predict W h occasion
          [AText (JStr (fmt W c +:+ " shirt for " +:+ fmt W o))] = inl msg ->
        handleocassion W clients req h
        = (Ok {| body := JObj [("error", JStr msg)]; status := 500 |},
           h ++ [EvRemote occasion
                   [AText (JStr (fmt W c +:+ " shirt for " +:+ fmt W o))]]))
  /\ (forall tryon req f msg h,
        clients !! "virtual_tryon" = Some tryon ->
        req_files req !! "uploadedFile" = Some f ->
        filename f <> "" ->
        remote_predict W (h ++ [EvWrite upload_path (content f)]) tryon
          [AFile (path_join PUBLIC_DIR "image.JPEG"); AFile upload_path]
          = inl msg ->
        upload_files W clients req h
        = (Ok {| body := JObj [("error", JStr msg)]; status := 500 |},
           h ++ [ EvWrite upload_path (content f);
                  EvRemote tryon [AFile (path_join PUBLIC_DIR "image.JPEG");
                                  AFile upload_path] ]))
  /\ (forall tryon req f url stream msg h,
        clients !! "virtual_tryon" = Some tryon ->
        req_files req !! "uploadedFile" = Some f ->
        req_form req !! "url" = Some url ->
        requests_get W h (strip url) = Response 200 stream None ->
        filename f <> "" ->
        let staged :=
          h ++ [EvHttpGet (strip url); EvOpen downloaded_path]
            ++ map (EvWrite downloaded_path) (iter_content stream 128)
            ++ [EvWrite upload_path (content f)] in
        remote_predict W staged tryon [AFile downloaded_path; AFile upload_path]
          = inl msg ->
        upload_ocassion W clients req h
        = (Ok {| body := JObj [("error", JStr msg)]; status := 500 |},
           staged ++ [EvRemote tryon [AFile downloaded_path; AFile upload_path]])).
Proof.
  repeat match goal with |- _ /\ _ => split end.
  - intros r req h. destruct r; cbn [dispatch];
      [ destruct (health_check_ok W clients h) as [resp E]; eauto | .. ];
      unfold predict, upload_ocassion, upload_files, handle_prompt, handleocassion,
        try_except, error_500, ret;
      match goal with
      | |- context [let (_, _) := ?body h in _] =>
          destruct (body h) as [[resp|msg] h']; eauto
      end.
  - intros r req h msg h' E. destruct r; cbn [route_body dispatch] in *;
      [ destruct (health_check_ok W clients h) as [resp E']; congruence | .. ];
      unfold predict, upload_ocassion, upload_files, handle_prompt, handleocassion;
      now rewrite (try_except_raise _ _ _ _ _ E).
  - intros r req h resp h' E. destruct r; cbn [route_body dispatch] in *;
      [ exact E | .. ];
      unfold predict, upload_ocassion, upload_files, handle_prompt, handleocassion;
      now rewrite (try_except_ok _ _ _ _ _ E).
  - intros chatbot req fields v msg h Hc Hj Hv Hr.
    unfold predict. erewrite try_except_raise; [reflexivity|].
    unfold predict_body. rewrite Hc. unfold get_json. rewrite Hj.
    unfold bind, subscript, ret. rewrite Hv.
    now rewrite (predict_call_raises _ _ _ _ _ Hr).
  - intros dress req fields v msg h Hc Hj Hv Ht Hr.
    unfold handle_prompt. erewrite try_except_raise; [reflexivity|].
    unfold handle_prompt_body. rewrite Hc. unfold get_json. rewrite Hj.
    unfold bind, get, ret. rewrite Hv. cbn [default from_option id].
    rewrite Ht. cbn [negb].
    now rewrite (predict_call_raises _ _ _ _ _ Hr).
  - intros occasion req fields c o msg h Hc Hj Hcol Hocc Htc Hto Hr.
    unfold handleocassion. erewrite try_except_raise; [reflexivity|].
    unfold handleocassion_body. rewrite Hc. unfold get_json. rewrite Hj.
    unfold bind, get, ret. rewrite Hcol, Hocc. cbn [default from_option id].
    rewrite Htc, Hto. cbn [negb orb].
    now rewrite (predict_call_raises _ _ _ _ _ Hr).
  - intros tryon req f msg h Hc Hf Hname Hr.
    unfold upload_files. erewrite try_except_raise; [reflexivity|].
    unfold upload_files_body. rewrite Hc, Hf.
    apply String.eqb_neq in Hname. rewrite Hname.
    fold upload_path. unfold bind, save, emit.
    rewrite (predict_call_raises _ _ _ _ _ Hr).
    now rewrite <- app_assoc.
  - intros tryon req f url stream msg h Hc Hf Hu Hg Hname staged Hr.
    unfold upload_ocassion. erewrite try_except_raise; [reflexivity|].
    unfold upload_ocassion_body. rewrite Hc, Hf.
    unfold form_subscript. rewrite Hu. unfold bind at 1. unfold ret at 1.
    unfold bind at 1. rewrite download_image_eval, Hg. cbn [Z.eqb Pos.eqb].
    change (String.eqb downloaded_path "") with false. cbv iota.
    apply String.eqb_neq in Hname. rewrite Hname.
    fold upload_path. unfold bind, save, emit.
    subst staged. rewrite <- !app_assoc in *. cbn [app] in *.
    rewrite (predict_call_raises _ _ _ _ _ Hr).
    rewrite <- ?app_assoc. cbn [app]. rewrite <- ?app_assoc. reflexivity.
Qed.

Lemma routes_catch_exceptions_witness :
  predict (fallback_world "https://fashion-chatbot.hf.space/") all_bound
    text_request []
  = (Ok {| body := JObj [("error", JStr "remote failure")]; status := 500 |},
     [ EvRemote {| endpoint := "https://fashion-chatbot.hf.space/" |}
         [AText (JStr "hello")] ]).
Proof.
  apply (proj1 (proj2 (proj2 (proj2
           (routes_catch_exceptions
              (fallback_world "https://fashion-chatbot.hf.space/") all_bound))))
           {| endpoint := "https://fashion-chatbot.hf.space/" |} text_request
           [("text", JStr "hello")] (JStr "hello") "remote failure" []);
    reflexivity.
Defined.

(** * Further properties of the code *)

(** ** Cost and outcome of the start-up pass *)

Lemma count_if_app (kind : event -> bool) (a b : history) :
  count_if kind (a ++ b) = count_if kind a + count_if kind b.
Proof. unfold count_if. now rewrite List.filter_app, length_app. Qed.

Lemma failures_counts (n : nat) (url : string) : forall k a : nat,
  a + k <= n ->
  count_if is_connect (failures n url a k) = k
  /\ count_if is_sleep (failures n url a k) = (if (a + k =? n)%nat then k - 1 else k)
  /\ Forall (fun e => e = EvConnect url \/ e = EvSleep 2) (failures n url a k).
Proof.
  induction k as [|k IH]; intros a Hk.
  - unfold failures. cbn. destruct (a + 0 =? n)%nat; repeat split; constructor.
  - assert (E : failures n url a (S k)
                = attempt_events n url a ++ failures n url (S a) k) by reflexivity.
    rewrite E, !count_if_app.
    destruct (IH (S a)) as (Hc & Hs & Hall); [lia|]. rewrite Hc, Hs.
    unfold attempt_events.
    destruct (Nat.ltb_spec a (n - 1)) as [Hlt|Hge]; cbn [count_if List.filter
      is_connect is_sleep length app];
      destruct (Nat.eqb_spec (S a + k) n), (Nat.eqb_spec (a + S k) n);
      repeat split; try lia;
      repeat (constructor; [tauto|]); exact Hall.
Qed.

(** X1.  A client is constructed with any number of retries.  The helper
    never raises and makes at most [max_retries] construction attempts,
    all against the given address; it waits 2 between two consecutive
    attempts and never after the last one (one wait less than attempts).
    It returns nothing exactly when each of the [max_retries] attempts
    fails, and then it has made them all; it returns a client exactly at
    the first attempt that succeeds, every attempt before it having
    failed, and that attempt is the last event.  With [max_retries = 0]
    it returns nothing without any attempt. *)
Theorem initialize_gradio_client_attempts (W : World) (url : string)
    (max_retries : nat) (h : history) :
  exists r evs,
    initialize_gradio_client W url max_retries h = (Ok r, h ++ evs)
    /\ count_if is_connect evs <= max_retries
    /\ count_if is_sleep evs = count_if is_connect evs - 1
    /\ Forall (fun e => e = EvConnect url \/ e = EvSleep 2) evs
    /\ (r = None <->
        forall i, i < max_retries ->
          connects W (h ++ failures max_retries url 0 i) url = false)
    /\ (r = None ->
        evs = failures max_retries url 0 max_retries
        /\ count_if is_connect evs = max_retries)
    /\ (forall c, r = Some c ->
          c = {| endpoint := url |}
          /\ exists j, j < max_retries
               /\ evs = failures max_retries url 0 j ++ [EvConnect url]
               /\ connects W (h ++ failures max_retries url 0 j) url = true
               /\ forall i, i < j ->
                    connects W (h ++ failures max_retries url 0 i) url = false)
    /\ (max_retries = 0 -> r = None /\ evs = []).
Proof.
  unfold initialize_gradio_client.
  destruct (initialize_from_full W url max_retries max_retries h)
    as [(j & Hj & Hfail & Hok & Hr)|[Hfail Hr]]; [lia| |];
    rewrite Nat.sub_diag in *.
  - destruct (failures_counts max_retries url j 0) as (Ec & Es & Hall); [lia|].
    exists (Some {| endpoint := url |}), (failures max_retries url 0 j ++ [EvConnect url]).
    split; [exact Hr|]. rewrite !count_if_app, Ec, Es.
    destruct (Nat.eqb_spec (0 + j) max_retries); [lia|].
    cbn [count_if List.filter is_connect is_sleep length].
    split; [lia|]. split; [lia|]. split.
    { apply Forall_app. split; [exact Hall|]. constructor; [tauto|constructor]. }
    split.
    { split; [discriminate|]. intros Hnone.
      rewrite (Hnone j Hj) in Hok. discriminate. }
    split; [discriminate|]. split; [|lia].
    intros c [= <-]. split; [reflexivity|]. exists j. now repeat split.
  - destruct (failures_counts max_retries url max_retries 0) as (Ec & Es & Hall); [lia|].
    exists None, (failures max_retries url 0 max_retries).
    split; [exact Hr|]. rewrite Ec, Es, Nat.eqb_refl.
    split; [lia|]. split; [lia|]. split; [exact Hall|].
    split; [split; [intros _; exact Hfail|reflexivity]|].
    split; [intros _; now split|]. split; [discriminate|].
    intros ->. now split.
Qed.

Lemma initialize_gradio_client_attempts_witness :
  exists r evs,
    initialize_gradio_client (fallback_world "https://virtual-try-on.hf.space/")
      "https://7395458a587bc50ec3.gradio.live/" 2 []
    = (Ok r, [] ++ evs)
    /\ r = None
    /\ evs = [ EvConnect "https://7395458a587bc50ec3.gradio.live/"; EvSleep 2;
               EvConnect "https://7395458a587bc50ec3.gradio.live/" ].
Proof.
  destruct (initialize_gradio_client_attempts
              (fallback_world "https://virtual-try-on.hf.space/")
              "https://7395458a587bc50ec3.gradio.live/" 2 [])
    as (r & evs & E & _ & _ & _ & Hiff & Hnone & _).
  assert (Hr : r = None) by (apply Hiff; intros i _; reflexivity).
  exists r, evs. split; [exact E|]. split; [exact Hr|].
  exact (proj1 (Hnone Hr)).
Defined.

Lemma count_if_exhausted (urls : list string) :
  count_if is_connect (concat (map exhausted urls)) = 3 * length urls
  /\ count_if is_sleep (concat (map exhausted urls)) = 2 * length urls.
Proof.
  induction urls as [|u urls [IHc IHs]]; [split; reflexivity|].
  cbn [map concat length]. rewrite !count_if_app, IHc, IHs.
  split; cbn; lia.
Qed.

Lemma count_if_failed_rounds (url : string) (j : nat) :
  count_if is_connect (failed_rounds url j) = j
  /\ count_if is_sleep (failed_rounds url j) = j.
Proof.
  unfold failed_rounds. induction j as [|j [IHc IHs]]; [split; reflexivity|].
  cbn [replicate concat]. rewrite !count_if_app, IHc, IHs. split; reflexivity.
Qed.

Lemma startup_event_exhausted (urls : list string) :
  Forall startup_event (concat (map exhausted urls)).
Proof.
  induction urls as [|u urls IH]; [constructor|].
  cbn [map concat]. apply Forall_app. split; [|exact IH].
  repeat (constructor; [exists u; tauto|]). constructor.
Qed.

Lemma startup_event_failed_rounds (url : string) (j : nat) :
  Forall startup_event (failed_rounds url j).
Proof.
  unfold failed_rounds. induction j as [|j IH]; [constructor|].
  cbn [replicate concat]. apply Forall_app. split; [|exact IH].
  repeat (constructor; [exists url; tauto|]). constructor.
Qed.

(** Resolving one service: what it costs and what it may return. *)
Lemma try_urls_cost (W : World) (urls : list string) (h : history) :
  exists r evs,
    try_urls W urls h = (Ok r, h ++ evs)
    /\ count_if is_connect evs <= 3 * length urls
    /\ count_if is_sleep evs <= 2 * length urls
    /\ Forall startup_event evs
    /\ (forall c, r = Some c -> endpoint c ∈ urls).
Proof.
  destruct (try_urls_spec W urls h)
    as [(pre & url & post & j & -> & Hj & Hc & Hr)|Hr].
  - exists (Some {| endpoint := url |}),
      (concat (map exhausted pre) ++ failed_rounds url j ++ [EvConnect url]).
    split; [exact Hr|].
    destruct (count_if_exhausted pre) as [Ec Es].
    destruct (count_if_failed_rounds url j) as [Fc Fs].
    rewrite !count_if_app, Ec, Es, Fc, Fs, length_app. cbn.
    repeat split; try lia.
    + apply Forall_app. split; [apply startup_event_exhausted|].
      apply Forall_app. split; [apply startup_event_failed_rounds|].
      constructor; [exists url; tauto|constructor].
    + intros c [= <-]. cbn. apply elem_of_app. right. apply elem_of_cons. now left.
  - exists None, (concat (map exhausted urls)). split; [exact Hr|].
    destruct (count_if_exhausted urls) as [Ec Es]. rewrite Ec, Es.
    repeat split; try lia; [apply startup_event_exhausted|discriminate].
Qed.

Lemma resolve_all_cost (W : World) (config : list (string * list string)) :
  forall (clients : gmap string Client) (h : history),
  exists reg evs,
    resolve_all W config clients h = (Ok reg, h ++ evs)
    /\ count_if is_connect evs <= 3 * total_urls config
    /\ count_if is_sleep evs <= 2 * total_urls config
    /\ Forall startup_event evs
    /\ (forall name c, reg !! name = Some c ->
          clients !! name = Some c
          \/ exists urls, (name, urls) ∈ config /\ endpoint c ∈ urls).
Proof.
  induction config as [|[n urls] rest IH]; intros clients h.
  - exists clients, []. cbn. unfold ret. rewrite app_nil_r.
    repeat split; try lia; [constructor|tauto].
  - cbn [resolve_all].
    destruct (try_urls_cost W urls h) as (r & evs1 & E1 & Hc1 & Hs1 & Hall1 & Hin1).
    rewrite (bind_ok _ _ _ _ _ E1).
    destruct (IH (match r with Some c => <[n:=c]> clients | None => clients end)
                 (h ++ evs1)) as (reg & evs2 & E2 & Hc2 & Hs2 & Hall2 & Hin2).
    exists reg, (evs1 ++ evs2). rewrite app_assoc. split; [exact E2|].
    rewrite !count_if_app.
    change (total_urls ((n, urls) :: rest)) with (length urls + total_urls rest).
    repeat split; try lia.
    + apply Forall_app. now split.
    + intros name c Hreg. destruct (Hin2 name c Hreg) as [Hcl|(us & Hus & Hend)].
      * destruct r as [c1|]; [|now left].
        destruct (decide (n = name)) as [->|Hne].
        -- rewrite lookup_insert_eq in Hcl. injection Hcl as ->.
           right. exists urls. split; [apply elem_of_cons; now left|now apply Hin1].
        -- rewrite lookup_insert_ne in Hcl by exact Hne. now left.
      * right. exists us. split; [apply elem_of_cons; now right|exact Hend].
Qed.

(** X2.  The start-up pass never raises and only constructs clients and waits:
    it makes at most three construction attempts and at most two waits
    of 2 per configured address, and nothing else.  Every client it
    leaves in the registry is filed under a configured service name and
    is bound to one of the addresses configured for that name. *)
Theorem startup_cost_and_registry (W : World)
    (config : list (string * list string)) (h : history) :
  exists reg evs,
    startup W config h = (Ok reg, h ++ evs)
    /\ count_if is_connect evs <= 3 * total_urls config
    /\ count_if is_sleep evs <= 2 * total_urls config
    /\ Forall startup_event evs
    /\ (forall name c, reg !! name = Some c ->
          exists urls, (name, urls) ∈ config /\ endpoint c ∈ urls).
Proof.
  destruct (resolve_all_cost W config ∅ h) as (reg & evs & E & Hc & Hs & Hall & Hin).
  exists reg, evs. repeat split; try assumption.
  intros name c Hreg. destruct (Hin name c Hreg) as [Hempty|Hcfg]; [|exact Hcfg].
  now rewrite lookup_empty in Hempty.
Qed.

Lemma startup_cost_and_registry_witness :
  exists reg evs,
    startup calm_world CLIENTS [] = (Ok reg, [] ++ evs)
    /\ count_if is_connect evs <= 3 * total_urls CLIENTS
    /\ count_if is_sleep evs <= 2 * total_urls CLIENTS.
Proof.
  destruct (startup_cost_and_registry calm_world CLIENTS [])
    as (reg & evs & E & Hc & Hs & _).
  exists reg, evs. now repeat split.
Defined.

(** X3.  Services are resolved independently.  In a configuration without
    repeated names, a service whose first candidate can always be
    connected to is bound to that candidate, whatever happens to the
    services resolved before or after it. *)
Theorem reachable_service_is_bound (W : World)
    (config : list (string * list string)) (name url : string)
    (others : list string) (h : history) :
  NoDup (map fst config) ->
  (name, url :: others) ∈ config ->
  (forall h', Client_new W h' url = None) ->
  exists reg h',
    startup W config h = (Ok reg, h')
    /\ reg !! name = Some {| endpoint := url |}.
Proof.
  intros Hnd Hin Hup.
  apply list_elem_of_split in Hin as (front & back & ->).
  rewrite map_app in Hnd. apply NoDup_app in Hnd as (_ & _ & Hnd).
  cbn [map fst] in Hnd. apply NoDup_cons in Hnd as [Hn _].
  unfold startup. rewrite resolve_all_app.
  destruct (resolve_all_total W front ∅ h) as (reg1 & h1 & E1).
  rewrite (bind_ok _ _ _ _ _ E1). cbn [resolve_all try_urls].
  assert (E2 : initialize_gradio_client W url default_max_retries h1
               = (Ok (Some {| endpoint := url |}), h1 ++ [EvConnect url])).
  { cbn. unfold try_except, bind, new_Client. now rewrite Hup. }
  unfold bind at 1. unfold bind at 1. rewrite E2. unfold ret at 1.
  destruct (resolve_all_total W back (<[name:={| endpoint := url |}]> reg1)
              (h1 ++ [EvConnect url])) as (reg & h' & E3).
  exists reg, h'. split; [exact E3|].
  rewrite (resolve_all_other W _ _ _ _ _ _ Hn E3). apply lookup_insert_eq.
Qed.

Lemma reachable_service_is_bound_witness :
  exists reg h',
    startup (fallback_world "dhaan-ish/text-to-cloth") CLIENTS [] = (Ok reg, h')
    /\ reg !! "text_to_dress" = Some {| endpoint := "dhaan-ish/text-to-cloth" |}.
Proof.
  apply (reachable_service_is_bound (fallback_world "dhaan-ish/text-to-cloth")
           CLIENTS "text_to_dress" "dhaan-ish/text-to-cloth" [] []).
  - apply (bool_decide_unpack _). vm_compute. exact I.
  - apply (bool_decide_unpack _). vm_compute. exact I.
  - intros h'. reflexivity.
Defined.

(** ** What a request can cause *)

Lemma behaves_ret {A} (a : A) (n : nat) (P : A -> Prop) :
  P a -> behaves (ret a) n P.
Proof.
  intros Ha h. exists []. cbn. rewrite app_nil_r.
  repeat split; try lia. now intros ? [= <-].
Qed.

Lemma behaves_raise {A} (msg : string) (n : nat) (P : A -> Prop) :
  behaves (raise msg) n P.
Proof.
  intros h. exists []. cbn. rewrite app_nil_r. repeat split; try lia. discriminate.
Qed.

Lemma behaves_ask {A} (oracle : history -> A) : behaves (ask oracle) 0 (fun _ => True).
Proof. intros h. exists []. cbn. rewrite app_nil_r. repeat split; lia. Qed.

Lemma behaves_emit (e : event) :
  is_remote e = false -> is_connect e = false -> is_sleep e = false ->
  behaves (emit e) 0 (fun _ => True).
Proof.
  intros Hr Hc Hs h. exists [e]. cbn. unfold count_if. cbn.
  rewrite Hr, Hc, Hs. cbn. repeat split; lia.
Qed.

Lemma behaves_weaken {A} (m : M A) (n n' : nat) (P Q : A -> Prop) :
  behaves m n P -> n <= n' -> (forall a, P a -> Q a) -> behaves m n' Q.
Proof.
  intros Hm Hn HPQ h. destruct (Hm h) as (evs & E & Hr & Hc & Hs & HP).
  exists evs. repeat split; try assumption; [lia|]. intros a Ha. now apply HPQ, HP.
Qed.

Lemma behaves_bind {A B} (m : M A) (k : A -> M B) (a b : nat)
    (Q : A -> Prop) (P : B -> Prop) :
  behaves m a Q -> (forall x, Q x -> behaves (k x) b P) ->
  behaves (bind m k) (a + b) P.
Proof.
  intros Hm Hk h. destruct (Hm h) as (evs1 & E1 & Hr1 & Hc1 & Hs1 & HQ).
  unfold bind. destruct (m h) as [[x|msg] h1]; cbn in E1; subst h1.
  - destruct (Hk x (HQ x eq_refl) (h ++ evs1)) as (evs2 & E2 & Hr2 & Hc2 & Hs2 & HP).
    exists (evs1 ++ evs2). rewrite E2, app_assoc, !count_if_app.
    repeat split; try lia. exact HP.
  - exists evs1. cbn. repeat split; try lia. discriminate.
Qed.

Lemma behaves_try {A} (body : M A) (handler : string -> M A) (a b : nat)
    (P : A -> Prop) :
  behaves body a P -> (forall msg, behaves (handler msg) b P) ->
  behaves (try_except body handler) (a + b) P.
Proof.
  intros Hm Hk h. destruct (Hm h) as (evs1 & E1 & Hr1 & Hc1 & Hs1 & HP1).
  unfold try_except. destruct (body h) as [[x|msg] h1]; cbn in E1; subst h1.
  - exists evs1. cbn. repeat split; try lia. intros y [= <-]. now apply HP1.
  - destruct (Hk msg (h ++ evs1)) as (evs2 & E2 & Hr2 & Hc2 & Hs2 & HP).
    exists (evs1 ++ evs2). rewrite E2, app_assoc, !count_if_app.
    repeat split; try lia. exact HP.
Qed.

Lemma behaves_predict_call (W : World) (c : Client) (args : list rarg) :
  behaves (predict_call W c args) 1 (fun _ => True).
Proof.
  intros h. exists [EvRemote c args]. unfold predict_call.
  destruct (remote_predict W h c args); cbn; repeat split; lia.
Qed.

Lemma behaves_write_chunks (path : string) (chunks : list (list byte)) :
  behaves (write_chunks path chunks) 0 (fun _ => True).
Proof.
  induction chunks as [|chunk rest IH]; cbn [write_chunks].
  - now apply behaves_ret.
  - apply (behaves_bind _ _ 0 0 (fun _ => True)); [now apply behaves_emit|].
    intros _ _. exact IH.
Qed.

Lemma behaves_http_get (W : World) (url : string) :
  behaves (http_get W url) 0 (fun _ => True).
Proof.
  intros h. exists [EvHttpGet url]. unfold http_get.
  destruct (requests_get W h url); cbn; repeat split; lia.
Qed.

Lemma behaves_download_image (W : World) (url : string) :
  behaves (download_image W url) 0 (fun _ => True).
Proof.
  unfold download_image. apply (behaves_try _ _ 0 0).
  - apply (behaves_bind _ _ 0 0 (fun _ => True)); [apply behaves_http_get|].
    intros [[code stream] broken] _. destruct (code =? 200)%Z.
    + apply (behaves_bind _ _ 0 0 (fun _ => True)); [now apply behaves_emit|].
      intros _ _.
      apply (behaves_bind _ _ 0 0 (fun _ => True)); [apply behaves_write_chunks|].
      intros _ _. destruct broken; [apply behaves_raise|now apply behaves_ret].
    + now apply behaves_ret.
  - intros msg. now apply behaves_ret.
Qed.

Lemma behaves_safe_copy (W : World) (src : json) (dst : string) :
  behaves (safe_copy W src dst) 0 (fun _ => True).
Proof.
  unfold safe_copy. apply (behaves_try _ _ 0 0).
  - apply (behaves_bind _ _ 0 0 (fun _ => True)); [now apply behaves_emit|].
    intros _ _.
    apply (behaves_bind _ _ 0 0 (fun _ => True)); [apply behaves_ask|].
    intros [|] _; [now apply behaves_ret|apply behaves_raise].
  - intros msg. now apply behaves_ret.
Qed.

Lemma behaves_publish (W : World) (result : json) (name ok ko : string) :
  behaves (publish W result name ok ko) 0 served_status.
Proof.
  unfold publish, generate_unique_filename.
  apply (behaves_bind _ _ 0 0 (fun _ => True)).
  - apply (behaves_bind _ _ 0 0 (fun _ => True)); [apply behaves_ask|].
    intros t _. now apply behaves_ret.
  - intros fname _.
    apply (behaves_bind _ _ 0 0 (fun _ => True)); [apply behaves_safe_copy|].
    intros [|] _; apply behaves_ret; unfold served_status; cbn; tauto.
Qed.

Lemma behaves_get_json (req : request) : behaves (get_json req) 0 (fun _ => True).
Proof.
  unfold get_json. destruct (req_json req); [apply behaves_raise|now apply behaves_ret].
Qed.

Lemma behaves_subscript (W : World) (data : json) (key : string) :
  behaves (subscript W data key) 0 (fun _ => True).
Proof.
  unfold subscript. destruct data; try apply behaves_raise.
  destruct (dict_get key fields); [now apply behaves_ret|apply behaves_raise].
Qed.

Lemma behaves_get (W : World) (data : json) (key : string) :
  behaves (get W data key) 0 (fun _ => True).
Proof.
  unfold get. destruct data; try apply behaves_raise. now apply behaves_ret.
Qed.

Lemma behaves_form_subscript (W : World) (req : request) (key : string) :
  behaves (form_subscript W req key) 0 (fun _ => True).
Proof.
  unfold form_subscript.
  destruct (req_form req !! key); [now apply behaves_ret|apply behaves_raise].
Qed.

Lemma behaves_split_result (W : World) (result : json) :
  behaves (split_result W result) 0 (fun _ => True).
Proof.
  unfold split_result. destruct result; try apply behaves_raise.
  now apply behaves_ret.
Qed.

Create HintDb effects discriminated.
#[local] Hint Resolve behaves_raise behaves_ask behaves_predict_call
  behaves_write_chunks behaves_http_get behaves_download_image
  behaves_safe_copy behaves_get_json behaves_subscript behaves_get
  behaves_form_subscript behaves_split_result : effects.

(** One silent step followed by the rest, and the one remote call followed
    by the rest. *)
Ltac silent_step :=
  apply (behaves_bind _ _ 0 _ (fun _ => True));
  [ solve [auto with effects | now apply behaves_emit] | intros ? _ ].
Ltac remote_step :=
  apply (behaves_bind _ _ 1 0 (fun _ => True));
  [ apply behaves_predict_call | intros ? _ ].
Ltac answer :=
  apply behaves_ret; unfold served_status; cbn; repeat split; try tauto;
  try discriminate.

Lemma behaves_route_body (W : World) (clients : gmap string Client)
    (r : route) (req : request) :
  behaves (route_body W clients r req) 1 (route_answer clients r).
Proof.
  unfold route_answer.
  destruct r; cbn [route_body capability].
  - (* /health *)
    unfold health_check. silent_step. silent_step. now apply behaves_ret.
  - (* /predict *)
    unfold predict_body. destruct (clients !! "chatbot"); [|answer].
    silent_step. silent_step. remote_step. answer.
  - (* /uploadocassion *)
    unfold upload_ocassion_body. destruct (clients !! "virtual_tryon"); [|answer].
    destruct (req_files req !! "uploadedFile"); [|answer].
    silent_step. silent_step.
    match goal with |- context [match ?d with Some _ => _ | None => _ end] =>
      destruct d as [path|]; [|answer] end.
    destruct (String.eqb path ""); [answer|].
    destruct (String.eqb (filename f) ""); [answer|].
    silent_step. remote_step.
    eapply behaves_weaken; [apply behaves_publish|lia|]. intros; split; [tauto|discriminate].
  - (* /upload *)
    unfold upload_files_body. destruct (clients !! "virtual_tryon"); [|answer].
    destruct (req_files req !! "uploadedFile"); [|answer].
    destruct (String.eqb (filename f) ""); [answer|].
    silent_step. remote_step.
    eapply behaves_weaken; [apply behaves_publish|lia|]. intros; split; [tauto|discriminate].
  - (* /handleprompt *)
    unfold handle_prompt_body. destruct (clients !! "text_to_dress"); [|answer].
    silent_step. silent_step.
    match goal with |- context [if ?b then _ else _] => destruct b; [answer|] end.
    remote_step.
    eapply behaves_weaken; [apply behaves_publish|lia|]. intros; split; [tauto|discriminate].
  - (* /handleocassion *)
    unfold handleocassion_body. destruct (clients !! "occasion"); [|answer].
    silent_step. silent_step. silent_step.
    match goal with |- context [if ?b then _ else _] => destruct b; [answer|] end.
    remote_step. silent_step. answer.
Qed.

Lemma behaves_dispatch (W : World) (clients : gmap string Client)
    (r : route) (req : request) :
  behaves (dispatch W clients r req) 1
    (fun resp => route_answer clients r resp \/ status resp = 500).
Proof.
  pose proof (behaves_route_body W clients r req) as Hbody.
  destruct r; cbn [dispatch route_body] in *;
    [ eapply behaves_weaken; [exact Hbody|lia|tauto] | .. ];
    unfold predict, upload_ocassion, upload_files, handle_prompt, handleocassion;
    apply (behaves_try _ _ 1 0);
    try (eapply behaves_weaken; [exact Hbody|lia|tauto]);
    intros msg; unfold error_500; apply behaves_ret; now right.
Qed.

Lemma dispatch_returns (W : World) (clients : gmap string Client)
    (r : route) (req : request) (h : history) :
  exists resp h', dispatch W clients r req h = (Ok resp, h').
Proof.
  destruct r; cbn [dispatch]; [eexists _, _; reflexivity|..];
    unfold predict, upload_ocassion, upload_files, handle_prompt, handleocassion,
      try_except, error_500, ret;
    match goal with
    | |- context [let (_, _) := ?body h in _] =>
        destruct (body h) as [[resp|msg] h']; eauto
    end.
Qed.

(** X4.  A request is served by at most one remote call and never touches the
    registry.  Whatever the route, the request, the registry and the
    outside world, the route returns a response having only appended
    events to the history; at most one of them is a remote call, and
    none is a client construction or a wait. *)
Theorem request_makes_one_call_at_most (W : World)
    (clients : gmap string Client) (r : route) (req : request) (h : history) :
  exists resp evs,
    dispatch W clients r req h = (Ok resp, h ++ evs)
    /\ count_if is_remote evs <= 1
    /\ count_if is_connect evs = 0
    /\ count_if is_sleep evs = 0.
Proof.
  destruct (dispatch_returns W clients r req h) as (resp & h' & E).
  destruct (behaves_dispatch W clients r req h) as (evs & Hs & Hr & Hc & Hsl & _).
  rewrite E in Hs. cbn in Hs. subst h'. now exists resp, evs.
Qed.

(** X5.  The status of an answer tells whether the service was there.  A POST
    route answers 503 exactly when the registry holds no client for its
    service; otherwise it answers 200, 400 or 500, and the chat route
    never answers 400. *)
Theorem status_503_iff_unbound (W : World) (clients : gmap string Client)
    (r : route) (cap : string) (req : request) (h h' : history) (resp : response) :
  capability r = Some cap ->
  dispatch W clients r req h = (Ok resp, h') ->
  (status resp = 503 <-> clients !! cap = None)
  /\ (status resp = 200 \/ status resp = 400 \/ status resp = 500
      \/ status resp = 503)
  /\ (r = Predict -> status resp <> 400).
Proof.
  intros Hcap E.
  destruct (behaves_dispatch W clients r req h) as (evs & _ & _ & _ & _ & HP).
  specialize (HP resp). rewrite E in HP. specialize (HP eq_refl).
  unfold route_answer, served_status in HP. rewrite Hcap in HP.
  destruct (clients !! cap) as [c|] eqn:Ecl.
  - repeat split; try discriminate; try intros ->; try lia.
    destruct HP as [[_ HP]|HP]; [now apply HP|lia].
  - destruct HP as [HP|HP].
    + repeat split; try tauto; lia.
    + exfalso.
      (* an unbound service is answered by the first test of the route *)
      destruct r; cbn in Hcap; try discriminate; injection Hcap as <-;
        cbn [dispatch] in E;
        unfold predict, predict_body, upload_ocassion, upload_ocassion_body,
          upload_files, upload_files_body, handle_prompt, handle_prompt_body,
          handleocassion, handleocassion_body, try_except, ret, jsonify in E;
        rewrite Ecl in E; injection E as <- _; discriminate HP.
Qed.

Lemma status_503_iff_unbound_witness :
  (status (jsonify [("result", JStr "shirt,shoes,tie")] 200) = 503
   <-> all_bound !! "chatbot" = None)
  /\ (status (jsonify [("result", JStr "shirt,shoes,tie")] 200) = 200
      \/ status (jsonify [("result", JStr "shirt,shoes,tie")] 200) = 400
      \/ status (jsonify [("result", JStr "shirt,shoes,tie")] 200) = 500
      \/ status (jsonify [("result", JStr "shirt,shoes,tie")] 200) = 503)
  /\ (Predict = Predict ->
      status (jsonify [("result", JStr "shirt,shoes,tie")] 200) <> 400).
Proof.
  apply (status_503_iff_unbound calm_world all_bound Predict "chatbot"
           text_request []
           [EvRemote {| endpoint := "https://fashion-chatbot.hf.space/" |}
              [AText (JStr "hello")]]);
    reflexivity.
Defined.

(** ** The routes on their main paths *)

Lemma publish_eval (W : World) (result : json) (name ok ko : string) (h : history) :
  let fname := stamped W h name in
  let dst := path_join PUBLIC_DIR fname in
  publish W result name ok ko h
  = (Ok (published (shutil_copy W (h ++ [EvCopy result dst]) result dst) fname ok ko),
     h ++ [EvCopy result dst]).
Proof.
  cbv zeta. unfold publish, generate_unique_filename, safe_copy, try_except, bind,
    ask, emit, ret, raise, published, stamped.
  destruct (shutil_copy W _ result _); reflexivity.
Qed.

(** X6.  The chat route forwards the [text] of a JSON object, whatever value it
    holds (an empty string included), in one remote call, and answers 200
    with the remote value under [result]. *)
Theorem predict_forwards_text (W : World) (clients : gmap string Client)
    (chatbot : Client) (req : request) (fields : list (string * json))
    (v result : json) (h : history) :
  clients !! "chatbot" = Some chatbot ->
  req_json req = inr (JObj fields) ->
  dict_get "text" fields = Some v ->
  remote_predict W h chatbot [AText v] = inr result ->
  predict W clients req h
  = (Ok {| body := JObj [("result", result)]; status := 200 |},
     h ++ [EvRemote chatbot [AText v]]).
Proof.
  intros Hc Hj Hv Hr.
  unfold predict, predict_body, try_except, bind, get_json, subscript, predict_call,
    ret, jsonify.
  now rewrite Hc, Hj, Hv, Hr.
Qed.

Lemma predict_forwards_text_witness :
  predict calm_world all_bound text_request []
  = (Ok {| body := JObj [("result", JStr "shirt,shoes,tie")]; status := 200 |},
     [EvRemote {| endpoint := "https://fashion-chatbot.hf.space/" |}
        [AText (JStr "hello")]]).
Proof.
  apply (predict_forwards_text calm_world all_bound
           {| endpoint := "https://fashion-chatbot.hf.space/" |} text_request
           [("text", JStr "hello")] (JStr "hello") (JStr "shirt,shoes,tie") []);
    reflexivity.
Defined.

(** X7.  The try-on route stages before it calls.  With a named file part, the
    route writes the uploaded bytes to [upload.png] in the uploads
    directory (the client's file name is not used), then calls the
    try-on client with the fixed base picture and the staged file, then
    copies the remote result into the public directory under the
    time-stamped name, in that order.  It answers 200 with that very name
    if the copy works and 500 if it does not. *)
Theorem upload_files_stages_then_calls (W : World) (clients : gmap string Client)
    (tryon : Client) (req : request) (f : FileStorage) (result : json)
    (h : history) :
  clients !! "virtual_tryon" = Some tryon ->
  req_files req !! "uploadedFile" = Some f ->
  filename f <> "" ->
  let staged := h ++ [EvWrite upload_path (content f)] in
  let args := [AFile base_image; AFile upload_path] in
  remote_predict W staged tryon args = inr result ->
  let called := staged ++ [EvRemote tryon args] in
  let fname := stamped W called "result.png" in
  let dst := path_join PUBLIC_DIR fname in
  upload_files W clients req h
  = (Ok (published (shutil_copy W (called ++ [EvCopy result dst]) result dst)
           fname "Result image copied successfully." "Failed to save result image"),
     called ++ [EvCopy result dst]).
Proof.
  intros Hc Hf Hname staged args Hr called fname dst.
  unfold upload_files. apply try_except_ok.
  unfold upload_files_body. rewrite Hc, Hf.
  apply String.eqb_neq in Hname. rewrite Hname.
  fold upload_path base_image. unfold save.
  erewrite bind_ok; [|reflexivity].
  erewrite bind_ok; [|unfold predict_call; fold staged args; rewrite Hr; reflexivity].
  apply publish_eval.
Qed.

Lemma upload_files_stages_then_calls_witness :
  upload_files calm_world all_bound named_file_request []
  = (Ok {| body := JObj [ ("message", JStr "Result image copied successfully.");
                          ("filename", JStr "20240309_070559_result.png") ];
           status := 200 |},
     [ EvWrite upload_path [x89; x50]%byte;
       EvRemote {| endpoint := "https://virtual-try-on.hf.space/" |}
         [AFile base_image; AFile upload_path];
       EvCopy (JStr "shirt,shoes,tie")
         (path_join PUBLIC_DIR "20240309_070559_result.png") ]).
Proof.
  apply (upload_files_stages_then_calls calm_world all_bound
           {| endpoint := "https://virtual-try-on.hf.space/" |} named_file_request
           {| filename := "dress.png"; content := [x89; x50]%byte |}
           (JStr "shirt,shoes,tie") []);
    try reflexivity. discriminate.
Defined.

(** X8.  The prompt route forwards a non-empty [prompt] in one remote call and
    copies the remote result into the public directory under the
    time-stamped name of [generated_dress.png]; it answers 200 with that
    name if the copy works and 500 if it does not.  Nothing is staged
    before the call. *)
Theorem handle_prompt_publishes (W : World) (clients : gmap string Client)
    (dress : Client) (req : request) (fields : list (string * json))
    (prompt result : json) (h : history) :
  clients !! "text_to_dress" = Some dress ->
  req_json req = inr (JObj fields) ->
  dict_get "prompt" fields = Some prompt ->
  truthy prompt = true ->
  remote_predict W h dress [AText prompt] = inr result ->
  let called := h ++ [EvRemote dress [AText prompt]] in
  let fname := stamped W called "generated_dress.png" in
  let dst := path_join PUBLIC_DIR fname in
  handle_prompt W clients req h
  = (Ok (published (shutil_copy W (called ++ [EvCopy result dst]) result dst)
           fname "Success" "Failed to save generated image"),
     called ++ [EvCopy result dst]).
Proof.
  intros Hc Hj Hp Ht Hr called fname dst.
  unfold handle_prompt. apply try_except_ok.
  unfold handle_prompt_body. rewrite Hc.
  erewrite bind_ok; [|unfold get_json; rewrite Hj; reflexivity].
  erewrite bind_ok; [|unfold get; rewrite Hp; reflexivity].
  cbn [default from_option id]. rewrite Ht. cbn [negb].
  erewrite bind_ok; [|unfold predict_call; rewrite Hr; reflexivity].
  apply publish_eval.
Qed.

Lemma handle_prompt_publishes_witness :
  handle_prompt calm_world all_bound prompt_request []
  = (Ok {| body := JObj [ ("message", JStr "Success");
                          ("filename", JStr "20240309_070559_generated_dress.png") ];
           status := 200 |},
     [ EvRemote {| endpoint := "dhaan-ish/text-to-cloth" |}
         [AText (JStr "a red summer dress")];
       EvCopy (JStr "shirt,shoes,tie")
         (path_join PUBLIC_DIR "20240309_070559_generated_dress.png") ]).
Proof.
  apply (handle_prompt_publishes calm_world all_bound
           {| endpoint := "dhaan-ish/text-to-cloth" |} prompt_request
           [("prompt", JStr "a red summer dress")] (JStr "a red summer dress")
           (JStr "shirt,shoes,tie") []);
    reflexivity.
Defined.

(** X9.  When the download fails, the occasion try-on route stops there.  With
    a file part and a [url], if the GET on the stripped address fails in
    transport or answers another status than 200, the route answers 500
    with [Failed to download image]; the GET is all it has done: the
    upload is not staged and no remote call is made. *)
Theorem upload_ocassion_download_failure (W : World)
    (clients : gmap string Client) (tryon : Client) (req : request)
    (f : FileStorage) (url : string) (h : history) :
  clients !! "virtual_tryon" = Some tryon ->
  req_files req !! "uploadedFile" = Some f ->
  req_form req !! "url" = Some url ->
  (forall stream, requests_get W h (strip url) <> Response 200 stream None) ->
  (forall stream msg,
      requests_get W h (strip url) <> Response 200 stream (Some msg)) ->
  upload_ocassion W clients req h
  = (Ok {| body := JObj [("error", JStr "Failed to download image")];
           status := 500 |},
     h ++ [EvHttpGet (strip url)]).
Proof.
  intros Hc Hf Hu Hok Hbroken.
  unfold upload_ocassion. apply try_except_ok.
  unfold upload_ocassion_body. rewrite Hc, Hf.
  erewrite bind_ok; [|unfold form_subscript; rewrite Hu; reflexivity].
  assert (E : download_image W url h = (Ok None, h ++ [EvHttpGet (strip url)])).
  { rewrite download_image_eval.
    destruct (requests_get W h (strip url)) as [msg|code stream broken];
      [reflexivity|].
    destruct (Z.eqb_spec code 200) as [->|Hne]; [|reflexivity].
    destruct broken as [msg|];
      [now destruct (Hbroken stream msg)|now destruct (Hok stream)]. }
  erewrite bind_ok; [|exact E]. reflexivity.
Qed.

Lemma upload_ocassion_download_failure_witness :
  upload_ocassion (fallback_world "https://virtual-try-on.hf.space/") all_bound
    named_file_request []
  = (Ok {| body := JObj [("error", JStr "Failed to download image")];
           status := 500 |},
     [EvHttpGet "http://example.org/shirt.png"]).
Proof.
  apply (upload_ocassion_download_failure
           (fallback_world "https://virtual-try-on.hf.space/") all_bound
           {| endpoint := "https://virtual-try-on.hf.space/" |} named_file_request
           {| filename := "dress.png"; content := [x89; x50]%byte |}
           "http://example.org/shirt.png" []);
    try reflexivity; intros; discriminate.
Defined.

(** X10.  The occasion try-on route on its main path: it downloads the picture
    at [url] into [downloaded_image.png], then stages the upload as
    [upload.png], then calls the try-on client with the downloaded
    picture and the staged file, then copies the result into the public
    directory under the time-stamped name, in that order; it answers 200
    with that name if the copy works and 500 if it does not. *)
Theorem upload_ocassion_stages_then_calls (W : World)
    (clients : gmap string Client) (tryon : Client) (req : request)
    (f : FileStorage) (url : string) (stream : nat -> list (list byte))
    (result : json) (h : history) :
  clients !! "virtual_tryon" = Some tryon ->
  req_files req !! "uploadedFile" = Some f ->
  req_form req !! "url" = Some url ->
  requests_get W h (strip url) = Response 200 stream None ->
  filename f <> "" ->
  let staged :=
    h ++ [EvHttpGet (strip url); EvOpen downloaded_path]
      ++ map (EvWrite downloaded_path) (iter_content stream 128)
      ++ [EvWrite upload_path (content f)] in
  let args := [AFile downloaded_path; AFile upload_path] in
  remote_predict W staged tryon args = inr result ->
  let called := staged ++ [EvRemote tryon args] in
  let fname := stamped W called "result.png" in
  let dst := path_join PUBLIC_DIR fname in
  upload_ocassion W clients req h
  = (Ok (published (shutil_copy W (called ++ [EvCopy result dst]) result dst)
           fname "Result image copied successfully." "Failed to save result image"),
     called ++ [EvCopy result dst]).
Proof.
  intros Hc Hf Hu Hg Hname staged args Hr called fname dst.
  unfold upload_ocassion. apply try_except_ok.
  unfold upload_ocassion_body. rewrite Hc, Hf.
  erewrite bind_ok; [|unfold form_subscript; rewrite Hu; reflexivity].
  erewrite bind_ok; [|rewrite download_image_eval, Hg; reflexivity].
  assert (En : String.eqb downloaded_path "" = false) by reflexivity.
  cbv beta iota. rewrite En.
  apply String.eqb_neq in Hname. rewrite Hname.
  fold upload_path. unfold save.
  assert (Es : (h ++ [EvHttpGet (strip url); EvOpen downloaded_path]
                  ++ map (EvWrite downloaded_path) (iter_content stream 128))
               ++ [EvWrite upload_path (content f)] = staged).
  { subst staged. now rewrite <- !app_assoc. }
  erewrite bind_ok; [|unfold emit; rewrite Es; reflexivity].
  erewrite bind_ok; [|unfold predict_call; fold args; rewrite Hr; reflexivity].
  apply publish_eval.
Qed.

Lemma upload_ocassion_stages_then_calls_witness :
  upload_ocassion calm_world all_bound named_file_request []
  = (Ok {| body := JObj [ ("message", JStr "Result image copied successfully.");
                          ("filename", JStr "20240309_070559_result.png") ];
           status := 200 |},
     [ EvHttpGet "http://example.org/shirt.png";
       EvOpen downloaded_path;
       EvWrite downloaded_path [x01; x02; x03]%byte;
       EvWrite upload_path [x89; x50]%byte;
       EvRemote {| endpoint := "https://virtual-try-on.hf.space/" |}
         [AFile downloaded_path; AFile upload_path];
       EvCopy (JStr "shirt,shoes,tie")
         (path_join PUBLIC_DIR "20240309_070559_result.png") ]).
Proof.
  apply (upload_ocassion_stages_then_calls calm_world all_bound
           {| endpoint := "https://virtual-try-on.hf.space/" |} named_file_request
           {| filename := "dress.png"; content := [x89; x50]%byte |}
           "http://example.org/shirt.png" (fun _ => [[x01; x02; x03]%byte])
           (JStr "shirt,shoes,tie") []);
    try reflexivity. discriminate.
Defined.

(** X11.  A body that is not JSON is answered 500.  In the three JSON routes,
    with the service bound, when reading the body raises, the route
    answers 500 with the text of that exception and has done nothing. *)
Theorem json_routes_unreadable_body (W : World) (clients : gmap string Client)
    (r : route) (cap : string) (c : Client) (req : request) (msg : string)
    (h : history) :
  r = Predict \/ r = HandlePrompt \/ r = HandleOcassion ->
  capability r = Some cap ->
  clients !! cap = Some c ->
  req_json req = inl msg ->
  dispatch W clients r req h
  = (Ok {| body := JObj [("error", JStr msg)]; status := 500 |}, h).
Proof.
  intros Hr Hcap Hc Hj.
  destruct Hr as [->|[->| ->]]; cbn in Hcap; injection Hcap as <-; cbn [dispatch];
    unfold predict, predict_body, handle_prompt, handle_prompt_body,
      handleocassion, handleocassion_body, try_except, bind, get_json;
    now rewrite Hc, Hj.
Qed.

Lemma json_routes_unreadable_body_witness :
  dispatch calm_world all_bound HandlePrompt named_file_request []
  = (Ok {| body := JObj [("error", JStr "415 Unsupported Media Type")];
           status := 500 |}, []).
Proof.
  apply (json_routes_unreadable_body calm_world all_bound HandlePrompt
           "text_to_dress" {| endpoint := "dhaan-ish/text-to-cloth" |});
    try reflexivity. right. left. reflexivity.
Defined.

(** X13.  A remote result that is not a string breaks the occasion route after
    the call.  With non-empty [color] and [selectedOccasion], if the
    occasion client returns a value that is not a string, the route has
    made its remote call and answers 500 with the text of the error of
    applying [split] to that value. *)
Theorem handleocassion_result_not_a_string (W : World)
    (clients : gmap string Client) (occasion : Client) (req : request)
    (fields : list (string * json)) (c o : string) (result : json) (h : history) :
  clients !! "occasion" = Some occasion ->
  req_json req = inr (JObj fields) ->
  dict_get "color" fields = Some (JStr c) ->
  dict_get "selectedOccasion" fields = Some (JStr o) ->
  c <> "" -> o <> "" ->
  remote_predict W h occasion [AText (JStr (c +:+ " shirt for " +:+ o))]
    = inr result ->
  (forall s, result <> JStr s) ->
  handleocassion W clients req h
  = (Ok {| body := JObj [("error", JStr (type_error W "split" result))];
           status := 500 |},
     h ++ [EvRemote occasion [AText (JStr (c +:+ " shirt for " +:+ o))]]).
Proof.
  intros Hc Hj Hcol Hocc Hcne Hone Hr Hns.
  unfold handleocassion, handleocassion_body, try_except, bind, get_json, get,
    predict_call, split_result, error_500, ret, raise, jsonify.
  rewrite Hc, Hj, Hcol, Hocc. cbn [default from_option id truthy fmt].
  apply String.eqb_neq in Hcne, Hone. rewrite Hcne, Hone. cbn [negb orb].
  rewrite Hr. destruct result; try reflexivity. now destruct (Hns s).
Qed.

Lemma handleocassion_result_not_a_string_witness :
  handleocassion null_world all_bound occasion_request []
  = (Ok {| body := JObj [("error", JStr "'NoneType' object has no attribute 'split'")];
           status := 500 |},
     [EvRemote {| endpoint := "https://fashion-occasion.hf.space/" |}
        [AText (JStr "red shirt for wedding")]]).
Proof.
  apply (handleocassion_result_not_a_string null_world all_bound
           {| endpoint := "https://fashion-occasion.hf.space/" |} occasion_request
           [ ("color", JStr "red"); ("selectedOccasion", JStr "wedding") ]
           "red" "wedding" JNull []);
    try reflexivity; intros; discriminate.
Defined.

(** ** Splitting and joining *)

Lemma split_on_no_sep (sep : ascii) (s : string) :
  count_char sep s = 0 -> split_on sep s = [s].
Proof.
  induction s as [|c s IH]; [reflexivity|].
  cbn [count_char split_on]. destruct (Ascii.eqb c sep); [discriminate|].
  intros H. now rewrite IH.
Qed.

Lemma split_on_app_sep (sep : ascii) (a b : string) :
  split_on sep (a +:+ String sep b) = split_on sep a ++ split_on sep b.
Proof.
  induction a as [|c a IH].
  - change (EmptyString +:+ String sep b) with (String sep b).
    cbn [split_on]. now rewrite Ascii.eqb_refl.
  - change (String c a +:+ String sep b) with (String c (a +:+ String sep b)).
    cbn [split_on]. rewrite IH. destruct (Ascii.eqb c sep); [reflexivity|].
    pose proof (split_on_nonempty sep a) as Hne.
    destruct (split_on sep a); [contradiction|reflexivity].
Qed.

(** X17.  Splitting undoes joining, and splitting distributes over a separator.
    Cutting a text made of two texts around a separator gives the pieces
    of the first followed by the pieces of the second; and if none of a
    non-empty list of pieces contains the separator, joining them and
    cutting the result gives the same pieces back, empty ones included. *)
Theorem split_on_join (sep : ascii) (pieces : list string) (a b : string) :
  pieces <> [] ->
  Forall (fun piece => count_char sep piece = 0) pieces ->
  split_on sep (join (String sep EmptyString) pieces) = pieces
  /\ split_on sep (a +:+ String sep b) = split_on sep a ++ split_on sep b.
Proof.
  intros Hne Hall. split; [|apply split_on_app_sep].
  induction pieces as [|p rest IH]; [contradiction|].
  inversion Hall as [|? ? Hp Hrest]; subst.
  destruct rest as [|q rest].
  - cbn [join]. now apply split_on_no_sep.
  - rewrite join_cons by discriminate.
    change (p +:+ String sep EmptyString +:+ join (String sep EmptyString) (q :: rest))
      with (p +:+ String sep (join (String sep EmptyString) (q :: rest))).
    rewrite split_on_app_sep, split_on_no_sep by exact Hp.
    rewrite IH by (discriminate || exact Hrest). reflexivity.
Qed.

Lemma split_on_join_witness :
  split_on "," (join "," [""; "shirt"; ""; "tie"]) = [""; "shirt"; ""; "tie"]
  /\ split_on "," ("a,b" +:+ String "," "c") = split_on "," "a,b" ++ split_on "," "c".
Proof.
  apply (split_on_join "," [""; "shirt"; ""; "tie"] "a,b" "c").
  - discriminate.
  - repeat constructor.
Defined.

(** ** Stripping *)

Lemma lstrip_split (s : string) :
  exists l, s = l +:+ lstrip s /\ whitespace l
    /\ match lstrip s with
       | String c _ => isspace c = false
       | EmptyString => True
       end.
Proof.
  induction s as [|c s (l & E & Hl & Hfirst)].
  - exists EmptyString. repeat split. constructor.
  - cbn [lstrip]. destruct (isspace c) eqn:Ec.
    + exists (String c l). split; [|split; [|exact Hfirst]].
      * change (String c l +:+ lstrip s) with (String c (l +:+ lstrip s)).
        now rewrite <- E.
      * constructor; assumption.
    + exists EmptyString. repeat split; [constructor|exact Ec].
Qed.

Lemma last_char_cons (c d : ascii) (s : string) :
  last_char (String c (String d s)) = last_char (String d s).
Proof. cbn. destruct (last_char s); reflexivity. Qed.

Lemma rstrip_split (t : string) :
  exists r, t = rstrip t +:+ r /\ whitespace r
    /\ match last_char (rstrip t) with
       | Some d => isspace d = false
       | None => True
       end.
Proof.
  induction t as [|c t (r & E & Hr & Hlast)].
  - exists EmptyString. repeat split. constructor.
  - cbn [rstrip]. destruct (rstrip t) as [|d k] eqn:Et.
    + change (EmptyString +:+ r) with r in E. subst r.
      destruct (isspace c) eqn:Ec.
      * exists (String c t). repeat split. constructor; assumption.
      * exists t. repeat split; [exact Hr|]. cbn. exact Ec.
    + exists r. split; [|split; [exact Hr|]].
      * change (String c (String d k) +:+ r) with (String c (String d k +:+ r)).
        now rewrite <- E.
      * now rewrite last_char_cons.
Qed.

Lemma rstrip_head (c : ascii) (t : string) :
  isspace c = false -> exists u, rstrip (String c t) = String c u.
Proof.
  intros Hc. cbn [rstrip]. destruct (rstrip t); [rewrite Hc|]; eauto.
Qed.

(** X18.  Stripping removes exactly the surrounding whitespace.  Every text is
    its stripped form between a run of whitespace on the left and one on
    the right; the stripped form neither starts nor ends with
    whitespace, and stripping it again changes nothing. *)
Theorem strip_decomposes (s : string) :
  exists l r,
    s = l +:+ strip s +:+ r
    /\ whitespace l /\ whitespace r
    /\ trimmed (strip s) = true
    /\ strip (strip s) = strip s.
Proof.
  destruct (lstrip_split s) as (l & El & Hl & Hfirst).
  destruct (rstrip_split (lstrip s)) as (r & Er & Hr & Hlast).
  assert (Ht : trimmed (strip s) = true).
  { unfold strip in *. destruct (lstrip s) as [|c t] eqn:Els; [reflexivity|].
    destruct (rstrip_head c t Hfirst) as [u Eu]. rewrite Eu in *.
    unfold trimmed. rewrite Hfirst. cbn [negb andb].
    destruct (last_char (String c u)); [now rewrite Hlast|reflexivity]. }
  exists l, r. unfold strip in *. rewrite <- Er.
  split; [exact El|]. split; [exact Hl|]. split; [exact Hr|]. split; [exact Ht|].
  rewrite <- (append_empty_r (rstrip (lstrip s))) at 1.
  change (rstrip (lstrip s) +:+ EmptyString)
    with (EmptyString +:+ rstrip (lstrip s) +:+ EmptyString).
  apply strip_surrounded; [constructor|constructor|exact Ht].
Qed.

Lemma strip_decomposes_witness :
  exists l r,
    "  a b " = l +:+ strip "  a b " +:+ r
    /\ whitespace l /\ whitespace r
    /\ trimmed (strip "  a b ") = true
    /\ strip (strip "  a b ") = strip "  a b ".
Proof. apply (strip_decomposes "  a b "). Defined.

(** ** Staged downloads *)

(** X19.  A stream that breaks leaves its bytes behind.  When the GET
    answers 200 and the stream then fails, the helper returns nothing
    although it has already opened the staging file and written to it,
    one write each and in order, every piece the stream delivered before
    failing. *)
Theorem download_broken_stream_leaves_file (W : World) (url : string)
    (stream : nat -> list (list byte)) (msg : string) (h : history) :
  requests_get W h (strip url) = Response 200 stream (Some msg) ->
  download_image W url h
  = (Ok None,
     h ++ [EvHttpGet (strip url); EvOpen downloaded_path]
       ++ map (EvWrite downloaded_path) (iter_content stream 128)).
Proof.
  intros E. now rewrite download_image_eval, E.
Qed.

Lemma download_broken_stream_leaves_file_witness :
  download_image null_world "http://example.org/shirt.png" []
  = (Ok None,
     [ EvHttpGet "http://example.org/shirt.png";
       EvOpen downloaded_path;
       EvWrite downloaded_path [x01; x02; x03]%byte ]).
Proof.
  apply (download_broken_stream_leaves_file null_world
           "http://example.org/shirt.png" (fun _ => [[x01; x02; x03]%byte])
           "connection reset" []).
  reflexivity.
Defined.

(** ** Published names *)

Lemma append_inj_length (s1 : string) : forall s2 x y : string,
  String.length s1 = String.length s2 -> s1 +:+ x = s2 +:+ y -> s1 = s2 /\ x = y.
Proof.
  induction s1 as [|c s1 IH]; intros [|d s2] x y L E; cbn in *;
    try discriminate; [now split|].
  injection E as -> E. destruct (IH s2 x y) as [-> ->]; [lia|exact E|now split].
Qed.

Lemma is_digit_digit (n : Z) : is_digit (digit n) = true.
Proof.
  unfold is_digit, digit.
  pose proof (Z.mod_pos_bound n 10 eq_refl) as Hn.
  rewrite nat_ascii_embedding by lia.
  apply andb_true_intro. split; apply Nat.leb_le; lia.
Qed.

(** X21.  Published names collide only at the same second with the same logical
    name.  For valid clock readings, two generated names are equal
    exactly when the readings are equal to the second and the logical
    names are equal; in particular results of different kinds never
    overwrite each other, and two results of one kind do when they are
    published within the same second. *)
Theorem stamped_names_collide_iff (t1 t2 : datetime) (name1 name2 : string) :
  valid_datetime t1 -> valid_datetime t2 ->
  (strftime t1 +:+ "_" +:+ name1 = strftime t2 +:+ "_" +:+ name2
   <-> t1 = t2 /\ name1 = name2).
Proof.
  intros V1 V2. split.
  - intros E. apply append_inj_length in E as [Et En];
      [|now rewrite !strftime_length].
    split; [now apply strftime_inj|]. now injection En.
  - now intros [-> ->].
Qed.

Lemma stamped_names_collide_iff_witness :
  strftime sample_time +:+ "_" +:+ "result.png"
  = strftime sample_time +:+ "_" +:+ "generated_dress.png"
  <-> sample_time = sample_time /\ "result.png" = "generated_dress.png".
Proof.
  apply (stamped_names_collide_iff sample_time sample_time
           "result.png" "generated_dress.png");
    unfold valid_datetime; cbn; lia.
Defined.

(** X22.  The shape of a stamp.  For a clock reading with a four-digit
    year, the stamp has exactly fifteen characters: the ninth is an
    underscore and each of the fourteen others is a decimal digit. *)
Theorem strftime_shape (t : datetime) :
  (1000 <= year t <= 9999)%Z ->
  length (list_ascii_of_string (strftime t)) = 15
  /\ list_ascii_of_string (strftime t) !! 8 = Some "_"%char
  /\ forall i, i < 15 -> i <> 8 ->
       exists c, list_ascii_of_string (strftime t) !! i = Some c
                 /\ is_digit c = true.
Proof.
  intros _. unfold strftime, pad4, pad2.
  split; [reflexivity|]. split; [reflexivity|].
  intros i Hi Hne.
  do 15 (destruct i as [|i];
         [first [congruence
                |eexists; split; [reflexivity|apply is_digit_digit]]|]).
  lia.
Qed.

Lemma strftime_shape_witness :
  length (list_ascii_of_string (strftime sample_time)) = 15
  /\ list_ascii_of_string (strftime sample_time) !! 8 = Some "_"%char
  /\ forall i, i < 15 -> i <> 8 ->
       exists c, list_ascii_of_string (strftime sample_time) !! i = Some c
                 /\ is_digit c = true.
Proof.
  apply (strftime_shape sample_time). cbn. lia.
Defined.

(** ** Edge cases of the routes *)

(** X15.  The occasion try-on route without a [url].  With a file part but no
    [url] field in the form, the route answers 500 with the text of the
    framework's missing-key exception and has done nothing: nothing is
    downloaded, staged or sent. *)
Theorem upload_ocassion_missing_url (W : World) (clients : gmap string Client)
    (tryon : Client) (req : request) (f : FileStorage) (h : history) :
  clients !! "virtual_tryon" = Some tryon ->
  req_files req !! "uploadedFile" = Some f ->
  req_form req !! "url" = None ->
  upload_ocassion W clients req h
  = (Ok {| body := JObj [("error", JStr (bad_request_key W "url"))];
           status := 500 |}, h).
Proof.
  intros Hc Hf Hu.
  unfold upload_ocassion, upload_ocassion_body, try_except, bind, form_subscript,
    error_500, raise, ret, jsonify.
  now rewrite Hc, Hf, Hu.
Qed.

Lemma upload_ocassion_missing_url_witness :
  upload_ocassion calm_world all_bound file_only_request []
  = (Ok {| body := JObj [("error", JStr "400 Bad Request")]; status := 500 |}, []).
Proof.
  apply (upload_ocassion_missing_url calm_world all_bound
           {| endpoint := "https://virtual-try-on.hf.space/" |} file_only_request
           {| filename := "dress.png"; content := [x89; x50]%byte |} []);
    reflexivity.
Defined.

(** X16.  The occasion try-on route tests the file name after the download.
    With a [url] whose download succeeds and a file part whose name is
    empty, the route answers 400 with [No selected file] only after the
    GET and the writes of the downloaded picture; the upload itself is
    not staged and no remote call is made. *)
Theorem upload_ocassion_empty_filename (W : World) (clients : gmap string Client)
    (tryon : Client) (req : request) (f : FileStorage) (url : string)
    (stream : nat -> list (list byte)) (h : history) :
  clients !! "virtual_tryon" = Some tryon ->
  req_files req !! "uploadedFile" = Some f ->
  req_form req !! "url" = Some url ->
  requests_get W h (strip url) = Response 200 stream None ->
  filename f = "" ->
  upload_ocassion W clients req h
  = (Ok {| body := JObj [("error", JStr "No selected file")]; status := 400 |},
     h ++ [EvHttpGet (strip url); EvOpen downloaded_path]
       ++ map (EvWrite downloaded_path) (iter_content stream 128)).
Proof.
  intros Hc Hf Hu Hg Hname.
  unfold upload_ocassion. apply try_except_ok.
  unfold upload_ocassion_body. rewrite Hc, Hf.
  erewrite bind_ok; [|unfold form_subscript; rewrite Hu; reflexivity].
  erewrite bind_ok; [|rewrite download_image_eval, Hg; reflexivity].
  assert (En : String.eqb downloaded_path "" = false) by reflexivity.
  cbv beta iota. rewrite En, Hname. reflexivity.
Qed.

Lemma upload_ocassion_empty_filename_witness :
  upload_ocassion calm_world all_bound unnamed_file_request []
  = (Ok {| body := JObj [("error", JStr "No selected file")]; status := 400 |},
     [ EvHttpGet "http://example.org/shirt.png";
       EvOpen downloaded_path;
       EvWrite downloaded_path [x01; x02; x03]%byte ]).
Proof.
  apply (upload_ocassion_empty_filename calm_world all_bound
           {| endpoint := "https://virtual-try-on.hf.space/" |} unnamed_file_request
           {| filename := ""; content := [] |}
           "http://example.org/shirt.png" (fun _ => [[x01; x02; x03]%byte]) []);
    reflexivity.
Defined.

(** X12.  A JSON body that is not an object is answered 500.  In the three JSON
    routes, with the service bound, a body that parses to anything but an
    object (null, a number, a string, a list) is answered 500 with the
    text of the error of reading a field from it, and nothing is sent:
    the chat route fails in its subscript, the other two in [get]. *)
Theorem json_routes_non_object_body (W : World) (clients : gmap string Client)
    (r : route) (cap : string) (c : Client) (req : request) (data : json)
    (h : history) :
  r = Predict \/ r = HandlePrompt \/ r = HandleOcassion ->
  capability r = Some cap ->
  clients !! cap = Some c ->
  req_json req = inr data ->
  (forall fields, data <> JObj fields) ->
  dispatch W clients r req h
  = (Ok {| body := JObj [("error",
                          JStr (type_error W
                                  (match r with
                                   | Predict => "__getitem__"
                                   | _ => "get"
                                   end)
                                  data))];
           status := 500 |}, h).
Proof.
  intros Hr Hcap Hc Hj Hno.
  destruct Hr as [->|[->| ->]]; cbn in Hcap; injection Hcap as <-; cbn [dispatch];
    unfold predict, predict_body, handle_prompt, handle_prompt_body,
      handleocassion, handleocassion_body, try_except, bind, get_json,
      subscript, get;
    rewrite Hc, Hj; destruct data; try reflexivity; now destruct (Hno fields).
Qed.

Lemma json_routes_non_object_body_witness :
  dispatch null_world all_bound HandleOcassion null_body_request []
  = (Ok {| body := JObj [("error", JStr "'NoneType' object has no attribute 'get'")];
           status := 500 |}, []).
Proof.
  apply (json_routes_non_object_body null_world all_bound HandleOcassion
           "occasion" {| endpoint := "https://fashion-occasion.hf.space/" |}
           null_body_request JNull []);
    try reflexivity.
  - right. right. reflexivity.
  - intros fields. discriminate.
Defined.

(** X14.  The occasion route accepts any two values Python counts as true.  The
    test on [color] and [selectedOccasion] is their truth value, not
    their type: two such values of any JSON type are put into the phrase
    through [str] (a string as it is), the phrase is sent in one remote
    call, and a string result is answered 200 with its comma pieces. *)
Theorem handleocassion_accepts_truthy (W : World) (clients : gmap string Client)
    (occasion : Client) (req : request) (fields : list (string * json))
    (c o : json) (r : string) (h : history) :
  clients !! "occasion" = Some occasion ->
  req_json req = inr (JObj fields) ->
  dict_get "color" fields = Some c ->
  dict_get "selectedOccasion" fields = Some o ->
  truthy c = true -> truthy o = true ->
  let phrase := JStr (fmt W c +:+ " shirt for " +:+ fmt W o) in
  remote_predict W h occasion [AText phrase] = inr (JStr r) ->
  handleocassion W clients req h
  = (Ok {| body := JObj [ ("newItems", JArr (map JStr (split_on "," r)));
                          ("showRecommendations", JBool true) ];
           status := 200 |},
     h ++ [EvRemote occasion [AText phrase]]).
Proof.
  intros Hc Hj Hcol Hocc Htc Hto phrase Hr.
  unfold handleocassion, handleocassion_body, try_except, bind, get_json, get,
    predict_call, split_result, ret, jsonify.
  rewrite Hc, Hj, Hcol, Hocc. cbn [default from_option id].
  rewrite Htc, Hto. cbn [negb orb]. fold phrase. now rewrite Hr.
Qed.

Lemma handleocassion_accepts_truthy_witness :
  handleocassion str_world all_bound boolean_occasion_request []
  = (Ok {| body := JObj [ ("newItems", JArr [JStr "shirt"; JStr "shoes"; JStr "tie"]);
                          ("showRecommendations", JBool true) ];
           status := 200 |},
     [EvRemote {| endpoint := "https://fashion-occasion.hf.space/" |}
        [AText (JStr "True shirt for wedding")]]).
Proof.
  apply (handleocassion_accepts_truthy str_world all_bound
           {| endpoint := "https://fashion-occasion.hf.space/" |}
           boolean_occasion_request
           [ ("color", JBool true); ("selectedOccasion", JStr "wedding") ]
           (JBool true) (JStr "wedding") "shirt,shoes,tie" []);
    reflexivity.
Defined.
